(** * photo_duplicate_manager: a shallow embedding and its verification

    The development follows [photo_duplicate_manager.py] function by
    function, under these conventions.

    - A Python [dict] is an insertion-ordered association list: iteration
      order is observable in the program (it fixes the order of the groups,
      of the paths inside a group, and so the tie-break of [max]).
    - Paths are strings, handled by the POSIX versions of [os.path].  A
      path is taken in one spelling: the model does not identify [a//b] or
      [./a/b] with [a/b].
    - The perceptual hash, the directory walk and the clock are the
      environment: a type of fingerprints with its [str], a function from a
      path to a hash or an exception, the triples of [os.walk], and the
      readings of [time.time()] as exact rationals.
    - The file system is a finite map from paths to entries: regular
      files, directories and dangling symbolic links.  An entry says what
      the program can observe at its path: the byte size, the kind, and
      how the operating system answers when the entry is moved.  The
      current directory is the entry at [.].
    - An exception is an explicit outcome, threaded together with the
      file-system state, so that what was done before a failure stays
      done.
    - The process pool is [executor.map]: the results of the workers, in
      the order of the input.
    - Standard output is a list of pieces, and writing to it is taken to
      succeed.  The fraction of the progress bar is a binary64 float, as in
      Python; the percentage and the ETA are shown before the rounding of
      the text. *)

From Stdlib Require Import Ascii String QArith Qcanon.
From Stdlib Require Floats.SpecFloat.
From stdpp Require Import numbers strings pretty gmap sets list.

Abbreviation Path := string (only parsing).

(** ** Insertion-ordered dictionaries (Python [dict]) *)

Module PyDict.
Section dict.
Context {K V : Type} `{!EqDecision K}.

(** [d.get(k)] *)
Fixpoint get (d : list (K * V)) (k : K) : option V :=
  match d with
  | [] => None
  | (k', v) :: d' => if decide (k' = k) then Some v else get d' k
  end.

(** [d[k] = v]: an existing key keeps its position, a new key goes last. *)
Fixpoint set (d : list (K * V)) (k : K) (v : V) : list (K * V) :=
  match d with
  | [] => [(k, v)]
  | (k', v') :: d' =>
      if decide (k' = k) then (k', v) :: d' else (k', v') :: set d' k v
  end.

(** [d.items()] and [d.values()], in insertion order. *)
Definition items (d : list (K * V)) : list (K * V) := d.
Definition values (d : list (K * V)) : list V := d.*2.
End dict.
End PyDict.

(** ** String and path helpers ([str] methods and POSIX [os.path]) *)

Module PyStr.
(** [p.rfind(c)]: the index of the last occurrence of [c], or [-1]. *)
Fixpoint rfind (c : ascii) (p : string) : Z :=
  match p with
  | EmptyString => -1
  | String x s =>
      let r := rfind c s in
      if decide (0 ≤ r)%Z then (r + 1)%Z
      else if decide (x = c) then 0%Z else (-1)%Z
  end.

(** The slices [p[:n]] and [p[n:]]. *)
Fixpoint upto (n : nat) (p : string) : string :=
  match n, p with
  | S n', String x s => String x (upto n' s)
  | _, _ => EmptyString
  end.

Fixpoint from (n : nat) (p : string) : string :=
  match n, p with
  | S n', String _ s => from n' s
  | _, _ => p
  end.

Definition startswith (pre s : string) : bool := String.prefix pre s.

Definition endswith (suf s : string) : bool :=
  String.prefix (String.rev suf) (String.rev s).

Definition lower_char (c : ascii) : ascii :=
  let n := N_of_ascii c in
  if decide (65 ≤ n ≤ 90)%N then ascii_of_N (n + 32) else c.

(** [s.lower()], on ASCII letters. *)
Fixpoint lower (s : string) : string :=
  match s with
  | EmptyString => EmptyString
  | String c s' => String (lower_char c) (lower s')
  end.

(** [c * n] for a one-character string [c]; empty for [n <= 0]. *)
Definition repeat (c : ascii) (n : Z) : string :=
  Nat.iter (Z.to_nat n) (String c) EmptyString.

(** Are all the characters of [s] periods? *)
Fixpoint all_dots (s : string) : bool :=
  match s with
  | EmptyString => true
  | String x s' => if decide (x = "."%char) then all_dots s' else false
  end.

(** [s.rstrip(c)]: [s] without its trailing occurrences of [c]. *)
Fixpoint rstrip (c : ascii) (s : string) : string :=
  match s with
  | EmptyString => EmptyString
  | String x s' =>
      let r := rstrip c s' in
      if decide (r = EmptyString ∧ x = c) then EmptyString else String x r
  end.
End PyStr.

Module os_path.
(** [os.path.basename]: what follows the last slash. *)
Definition basename (p : string) : string :=
  let i := (PyStr.rfind "/" p + 1)%Z in
  PyStr.from (Z.to_nat i) p.

(** [os.path.dirname]: what precedes the last slash, that slash included
    only when nothing but slashes precedes it. *)
Definition dirname (p : string) : string :=
  let i := (PyStr.rfind "/" p + 1)%Z in
  let head := PyStr.upto (Z.to_nat i) p in
  let stripped := PyStr.rstrip "/" head in
  if decide (stripped = "") then head else stripped.

(** [os.path.join] of two components. *)
Definition join (a b : string) : string :=
  if PyStr.startswith "/" b then b
  else if decide (a = "") then a +:+ b
  else if PyStr.endswith "/" a then a +:+ b
  else a +:+ "/" +:+ b.

(** [os.path.splitext]: split at the last period of the last component,
    unless that component has only leading periods before it. *)
Definition splitext (p : string) : string * string :=
  let sepIndex := PyStr.rfind "/" p in
  let dotIndex := PyStr.rfind "." p in
  if decide (sepIndex < dotIndex)%Z then
    let filenameIndex := Z.to_nat (sepIndex + 1) in
    let leading :=
      PyStr.upto (Z.to_nat dotIndex - filenameIndex) (PyStr.from filenameIndex p) in
    if PyStr.all_dots leading then (p, "")
    else (PyStr.upto (Z.to_nat dotIndex) p, PyStr.from (Z.to_nat dotIndex) p)
  else (p, "").
End os_path.

(** ** Grouping *)

Section grouping.
(** The perceptual hash is an opaque value of the [imagehash] library; the
    program only ever uses its string form [str(ph)]. *)
Context {Fingerprint : Type} (str : Fingerprint → string).

(** One iteration of the loop of [group_exact_duplicates]:
    [mapping.setdefault(key, []).append(filepath)], skipped for [None]. *)
Definition group_step (mapping : list (string * list Path))
    (item : Path * option Fingerprint) : list (string * list Path) :=
  let '(filepath, ph) := item in
  match ph with
  | None => mapping
  | Some h =>
      let key := str h in
      let group := default [] (PyDict.get mapping key) in
      PyDict.set mapping key (group ++ [filepath])
  end.

Definition group_exact_duplicates (hash_dict : list (Path * option Fingerprint))
    : list (list Path) :=
  let mapping := foldl group_step [] (PyDict.items hash_dict) in
  filter (λ group, 1 < length group) (PyDict.values mapping).

(** The paths of [d] whose fingerprint prints as [k], in the order of [d]. *)
Definition members (k : string) (d : list (Path * option Fingerprint)) : list Path :=
  omap (λ item : Path * option Fingerprint,
          match item.2 with
          | Some h => if decide (str h = k) then Some item.1 else None
          | None => None
          end) d.

(** Groups read as sets of paths. *)
Definition groups_as_sets (gs : list (list Path)) : gset (gset Path) :=
  list_to_set ((λ g : list Path, list_to_set g) <$> gs).
End grouping.

(** ** The file system and the exceptions of the move phase *)

(** How the operating system answers when a regular file is moved with
    [shutil.move]: the move goes through; or [os.rename] is refused and the
    copy that [shutil.move] falls back on fails as well, so that nothing
    changes; or [os.rename] is refused, the copy is written, and the source
    cannot be removed, so that the copy stays behind. *)
Inductive mobility := Movable | Refused | Pinned.

Inductive file_kind :=
| Regular (m : mobility)
| Directory (writable : bool)
| DanglingLink.

(** What the program can observe at a path. *)
Record entry := Entry { byte_size : Z; kind : file_kind }.

#[global] Instance mobility_eq_dec : EqDecision mobility.
Proof. solve_decision. Defined.
#[global] Instance file_kind_eq_dec : EqDecision file_kind.
Proof. solve_decision. Defined.
#[global] Instance entry_eq_dec : EqDecision entry.
Proof. solve_decision. Defined.

Inductive exn :=
| FileNotFoundError (p : Path)
| PermissionError (p : Path)
| FileExistsError (p : Path)
| NotADirectoryError (p : Path)
| ShutilError (p : Path)
| ValueError
| ImageError (p : Path)
| Unbounded.

Inductive outcome (A : Type) :=
| Return (a : A)
| Raise (e : exn).
Arguments Return {A} a.
Arguments Raise {A} e.

(** The state the move phase works on: the entries of the file system by
    path, and the relocations done so far, oldest first. *)
Record state := State {
  files : gmap string entry;
  relocations : list (Path * Path)
}.

(** Computations that read and write the state and may raise. *)
Definition M (A : Type) : Type := state → outcome A * state.

#[global] Instance M_ret : MRet M := λ A a s, (Return a, s).
#[global] Instance M_bind : MBind M := λ A B f m s,
  match m s with
  | (Return a, s') => f a s'
  | (Raise e, s') => (Raise e, s')
  end.

(** [os.path.isdir(p)] *)
Definition is_dir (fs : gmap string entry) (p : Path) : bool :=
  match kind <$> fs !! p with
  | Some (Directory _) => true
  | _ => false
  end.

(** [os.path.exists(p)]: true of a regular file and of a directory, false
    of a dangling link, whose target is looked for and not found. *)
Definition path_exists (fs : gmap string entry) (p : Path) : bool :=
  match kind <$> fs !! p with
  | Some (Regular _) | Some (Directory _) => true
  | _ => false
  end.

(** [os.path.getsize(p)], which follows links. *)
Definition getsize (p : Path) : M Z := λ s,
  match files s !! p with
  | Some e =>
      match kind e with
      | DanglingLink => (Raise (FileNotFoundError p), s)
      | _ => (Return (byte_size e), s)
      end
  | None => (Raise (FileNotFoundError p), s)
  end.

(** The directory that holds the name [p]: its [dirname], or the current
    directory. *)
Definition holder (p : Path) : Path :=
  let d := os_path.dirname p in
  if decide (d = "") then "." else d.

(** A directory as [os.mkdir] makes it: writable, under a umask that
    leaves the owner the right to write.  Its byte size depends on the
    file system; the program never reads it. *)
Definition fresh_dir : entry := Entry 4096 (Directory true).

(** [os.mkdir(p)] *)
Definition mkdir (p : Path) : M unit := λ s,
  if decide (p = "") then (Raise (FileNotFoundError p), s) else
  match files s !! p with
  | Some _ => (Raise (FileExistsError p), s)
  | None =>
      match kind <$> files s !! holder p with
      | Some (Directory true) =>
          (Return (),
           {| files := <[p := fresh_dir]> (files s);
              relocations := relocations s |})
      | Some (Directory false) => (Raise (PermissionError p), s)
      | Some (Regular _) => (Raise (NotADirectoryError p), s)
      | Some DanglingLink | None => (Raise (FileNotFoundError p), s)
      end
  end.

(** The directories on the way to [rest], outermost first: the parts of
    the path that end before a slash. *)
Fixpoint ancestors_from (done rest : string) : list Path :=
  match rest with
  | EmptyString => []
  | String c rest' =>
      (if decide (c = "/"%char ∧ done ≠ "") then [done] else []) ++
      ancestors_from (done +:+ String c "") rest'
  end.

Definition lineage (d : Path) : list Path := ancestors_from "" d ++ [d].

(** One step of [os.makedirs]: a name on the way that is taken is passed
    over, whatever holds it; the last name has to be a directory, or to be
    made one. *)
Definition ensure_dir (last : bool) (p : Path) : M unit := λ s,
  match files s !! p with
  | Some e =>
      match kind e with
      | Directory _ => (Return (), s)
      | _ => if last then (Raise (FileExistsError p), s) else (Return (), s)
      end
  | None => mkdir p s
  end.

Fixpoint make_chain (chain : list Path) : M unit :=
  match chain with
  | [] => mret ()
  | p :: rest => ensure_dir (bool_decide (rest = [])) p ;; make_chain rest
  end.

(** [os.makedirs(d, exist_ok=True)]: nothing to do when [d] is a
    directory; otherwise the missing directories on the way to [d] and [d]
    itself are made, outermost first, and the first [os.mkdir] that
    fails ends the call with its exception. *)
Definition makedirs (d : string) : M unit := λ s,
  if is_dir (files s) d then (Return (), s) else make_chain (lineage d) s.

(** Is [p] inside the directory [d]? *)
Definition inside (d p : Path) : bool := PyStr.startswith (d +:+ "/") p.

(** The entries after the directory [src] has been renamed [dst]: what was
    inside [src] is inside [dst]. *)
Definition move_tree (src dst : Path) (fs : gmap string entry) : gmap string entry :=
  filter (λ kv : string * entry, kv.1 ≠ src ∧ inside src kv.1 = false) fs ∪
  kmap (M2 := gmap string) (λ p : string, dst +:+ PyStr.from (String.length src) p)
    (filter (λ kv : string * entry, inside src kv.1 = true) fs).

(** [os.rename(src, dst)] with the fall-back of [shutil.move] when the
    renaming is refused, for a [dst] that is not a directory.  A regular
    file whose move is [Refused] stays, whatever the destination; then the
    directory holding [dst] has to be there and writable; then a [Pinned]
    file leaves a copy at [dst] and stays, a directory is renamed with what
    is inside it, unless [dst] is taken or inside it, and any other entry
    goes to [dst], replacing the dangling link that may be there. *)
Definition move_entry (src dst : Path) : M unit := λ s,
  match files s !! src with
  | None => (Raise (FileNotFoundError src), s)
  | Some e =>
      match kind e with
      | Regular Refused => (Raise (PermissionError src), s)
      | k =>
          match kind <$> files s !! holder dst with
          | Some (Directory true) =>
              match k with
              | Regular Pinned =>
                  (Raise (PermissionError src),
                   {| files := <[dst := Entry (byte_size e) (Regular Movable)]> (files s);
                      relocations := relocations s |})
              | Directory _ =>
                  if inside src dst then (Raise (ShutilError dst), s)
                  else if decide (is_Some (files s !! dst)) then
                    (Raise (FileExistsError dst), s)
                  else
                    (Return (),
                     {| files := <[dst := e]> (move_tree src dst (files s));
                        relocations := relocations s ++ [(src, dst)] |})
              | _ =>
                  (Return (),
                   {| files := <[dst := e]> (delete src (files s));
                      relocations := relocations s ++ [(src, dst)] |})
              end
          | Some (Directory false) => (Raise (PermissionError dst), s)
          | Some (Regular _) => (Raise (NotADirectoryError dst), s)
          | Some DanglingLink | None => (Raise (FileNotFoundError dst), s)
          end
      end
  end.

(** [shutil.move(src, dst)]: into [dst] when that is a directory, under
    the base name of [src], which must not exist there; to [dst] itself
    otherwise. *)
Definition shutil_move (src dst : Path) : M unit := λ s,
  if is_dir (files s) dst then
    if decide (src = dst) then (Return (), s)
    else
      let real_dst := os_path.join dst (os_path.basename (PyStr.rstrip "/" src)) in
      if path_exists (files s) real_dst then (Raise (ShutilError real_dst), s)
      else move_entry src real_dst s
  else move_entry src dst s.

(** The candidate name of the [i]-th round of the loop of [move_duplicate]. *)
Definition numbered (duplicates_dir base ext : string) (i : Z) : Path :=
  os_path.join duplicates_dir (base +:+ "_" +:+ pretty i +:+ ext).

(** [while os.path.exists(dest): dest = ...; i += 1], at most [fuel] rounds. *)
Fixpoint free_dest (fuel : nat) (fs : gmap string entry)
    (duplicates_dir base ext : string) (dest : Path) (i : Z) : option Path :=
  if path_exists fs dest then
    match fuel with
    | O => None
    | S fuel' =>
        free_dest fuel' fs duplicates_dir base ext
          (numbered duplicates_dir base ext i) (i + 1)
    end
  else Some dest.

(** The destination [move_duplicate] settles on.  The loop needs at most one
    round per existing entry ([free_dest_total] below). *)
Definition choose_dest (fs : gmap string entry) (src_file duplicates_dir : string)
    : option Path :=
  let name := os_path.basename src_file in
  let dest := os_path.join duplicates_dir name in
  let '(base, ext) := os_path.splitext name in
  free_dest (S (size fs)) fs duplicates_dir base ext dest 1.

(** The loop run on the current files. *)
Definition find_dest (src_file duplicates_dir : string) : M Path := λ s,
  match choose_dest (files s) src_file duplicates_dir with
  | Some dest => (Return dest, s)
  | None => (Raise Unbounded, s)
  end.

Definition move_duplicate (src_file duplicates_dir : string) : M unit :=
  makedirs duplicates_dir ;;
  dest ← find_dest src_file duplicates_dir;
  shutil_move src_file dest.

(** [max(l, key=key)]: the first element whose key is greatest. *)
Fixpoint max_loop (key : Path → M Z) (best : Path) (best_key : Z)
    (l : list Path) : M Path :=
  match l with
  | [] => mret best
  | p :: l' =>
      k ← key p;
      if decide (best_key < k)%Z then max_loop key p k l'
      else max_loop key best best_key l'
  end.

Definition py_max (key : Path → M Z) (l : list Path) : M Path :=
  match l with
  | [] => λ s, (Raise ValueError, s)
  | p :: l' => k ← key p; max_loop key p k l'
  end.

(** [for img in group: if img != original: move_duplicate(img, dir)] *)
Fixpoint move_others (original : Path) (duplicates_dir : string)
    (group : list Path) : M unit :=
  match group with
  | [] => mret ()
  | img :: rest =>
      (if decide (img ≠ original) then move_duplicate img duplicates_dir
       else mret ()) ;;
      move_others original duplicates_dir rest
  end.

Definition move_group (duplicates_dir : string) (group : list Path) : M unit :=
  original ← py_max getsize group;
  move_others original duplicates_dir group.

Fixpoint move_groups (duplicates_dir : string) (groups : list (list Path)) : M unit :=
  match groups with
  | [] => mret ()
  | group :: rest =>
      move_group duplicates_dir group ;; move_groups duplicates_dir rest
  end.

(** Step 4 of [compare_images]; [None] and the empty string are falsy. *)
Definition move_phase (move_path : option string) (exact_groups : list (list Path))
    : M unit :=
  match move_path with
  | Some mp =>
      if decide (mp = "") then mret ()
      else move_groups (os_path.join mp "duplicates") exact_groups
  | None => mret ()
  end.

(** ** Binary64 floats, as Python has them *)

Module pyfloat.
Import SpecFloat.

(** [float(n)] *)
Definition of_int (n : Z) : spec_float := binary_normalize 53 1024 n 0 false.

(** [a / b] on integers, for a positive [b]: the float nearest to the
    quotient. *)
Definition true_div (a b : Z) : spec_float :=
  match a with
  | Z0 => S754_zero false
  | Zpos _ =>
      let '(mz, ez, lz) := SFdiv_core_binary 53 1024 a 0 b 0 in
      binary_round_aux 53 1024 false mz ez lz
  | Zneg p =>
      let '(mz, ez, lz) := SFdiv_core_binary 53 1024 (Zpos p) 0 b 0 in
      binary_round_aux 53 1024 true mz ez lz
  end.

Definition mul (x y : spec_float) : spec_float := SFmul 53 1024 x y.

(** [int(x)]: truncation toward zero, of a finite [x]. *)
Definition to_int (x : spec_float) : Z :=
  match x with
  | S754_finite s m e =>
      let a := match e with
               | Zneg p => Z.shiftr (Zpos m) (Zpos p)
               | _ => Z.shiftl (Zpos m) e
               end in
      if s then (- a)%Z else a
  | _ => 0%Z
  end.

(** The rational a finite float stands for. *)
Definition to_Qc (x : spec_float) : Qc :=
  match x with
  | S754_finite s m e =>
      let a := Q2Qc (inject_Z (Zpos m) * Qpower 2 e) in
      if s then (- a)%Qc else a
  | _ => 0%Qc
  end.
End pyfloat.

(** A Python number: the fraction of the progress bar is the integer [1]
    or a float. *)
Inductive number :=
| Int (n : Z)
| Float (x : SpecFloat.spec_float).

(** [a * n] for an integer [n] *)
Definition times (a : number) (n : Z) : number :=
  match a with
  | Int m => Int (m * n)
  | Float x => Float (pyfloat.mul x (pyfloat.of_int n))
  end.

(** [int(a)] *)
Definition int_of (a : number) : Z :=
  match a with
  | Int m => m
  | Float x => pyfloat.to_int x
  end.

Definition value_of (a : number) : Qc :=
  match a with
  | Int m => Qc_of_Z m
  | Float x => pyfloat.to_Qc x
  end.

(** ** The progress line *)

(** One rendering of the bar.  The percentage and the ETA are the values
    the text shows rounded to two decimals and to one decimal. *)
Record progress_line := ProgressLine {
  bar : string;
  shown_current : Z;
  shown_total : Z;
  shown_percent : Qc;
  shown_eta : option Qc
}.

Definition print_progress_bar (current total : Z) (width : Z) (eta : option Qc)
    : progress_line :=
  let fraction : number :=
    if decide (0 < total)%Z then Float (pyfloat.true_div current total) else Int 1 in
  let done_width := int_of (times fraction width) in
  let bar := PyStr.repeat "#" done_width +:+ PyStr.repeat "-" (width - done_width) in
  {| bar := bar;
     shown_current := current;
     shown_total := total;
     shown_percent := value_of (times fraction 100);
     shown_eta := eta |}.

(** What the program writes to standard output, piece by piece. *)
Inductive output :=
| Usage (text : string)
| Computing (n_images : Z)
| Progress (line : progress_line)
| Newline
| ResultsIn (folder : string)
| NoDuplicates
| GroupLine (names : list string)
| MovedTo (duplicates_dir : string)
| Completed (seconds : Qc).

Definition FORMATS : list string :=
  [".jpg"; ".jpeg"; ".png"; ".bmp"; ".gif"; ".tiff"; ".webp"].

Definition usage_text : string :=
  "Usage:
  python3 photo_duplicate_manager.py /path/to/folder
  python3 photo_duplicate_manager.py /path/to/folder -m /path/to/destination".

(** ** The pipeline *)

Section pipeline.
Context {Fingerprint : Type} (str : Fingerprint → string).
(** [Image.open(p)] followed by [imagehash.phash]: a hash, or an exception. *)
Context (phash_file : Path → outcome Fingerprint).
(** The readings of [time.time()]: [time_at 0] is [start_time], [time_at i]
    is read in round [i] of the hashing loop, and the last reading is
    [time_at (n_images + 1)]. *)
Context (time_at : Z → Qc).
(** [os.walk(folder)]: triples of a directory, its sub-directories, its files. *)
Context (os_walk : string → list (string * list string * list string)).

Definition find_images (folder_path : string) : list Path :=
  flat_map (λ entry : string * list string * list string,
    let '(root, dirs, files) := entry in
    flat_map (λ filename : string,
      if existsb (λ suf, PyStr.endswith suf (PyStr.lower filename)) FORMATS
      then [os_path.join root filename] else []) files)
    (os_walk folder_path).

Definition safe_compute_hash (image_path : Path) : Path * option Fingerprint :=
  match phash_file image_path with
  | Return h => (image_path, Some h)
  | Raise _ => (image_path, None)
  end.

(** [executor.map(f, items)] yields the results in the order of the items. *)
Definition executor_map {A B : Type} (f : A → B) (items : list A) : list B :=
  f <$> items.

(** The hashing loop of [compare_images], from round [i] on: the dictionary
    it fills and the lines it prints. *)
Fixpoint hash_loop (start_time : Qc) (n_images : Z)
    (results : list (Path * option Fingerprint)) (i : Z)
    (hash_dict : list (Path * option Fingerprint))
    : list (Path * option Fingerprint) * list progress_line :=
  match results with
  | [] => (hash_dict, [])
  | (img_path, ph) :: rest =>
      let hash_dict := PyDict.set hash_dict img_path ph in
      let elapsed := (time_at i - start_time)%Qc in
      let avg_time := (elapsed / Qc_of_Z i)%Qc in
      let remaining := (avg_time * Qc_of_Z (n_images - i))%Qc in
      let line := print_progress_bar i n_images 40 (Some remaining) in
      let '(hash_dict', lines) := hash_loop start_time n_images rest (i + 1) hash_dict in
      (hash_dict', line :: lines)
  end.

(** Step 2 of [compare_images]. *)
Definition fingerprint_phase (images : list Path)
    : list (Path * option Fingerprint) * list progress_line :=
  let n_images := Z.of_nat (length images) in
  let start_time := time_at 0 in
  hash_loop start_time n_images (executor_map safe_compute_hash images) 1 [].

(** Step 5 of [compare_images]. *)
Definition report (folder_path : string) (move_path : option string)
    (exact_groups : list (list Path)) : list output :=
  ResultsIn folder_path ::
  match exact_groups with
  | [] => [NoDuplicates]
  | _ =>
      ((λ group : list Path, GroupLine (os_path.basename <$> group)) <$> exact_groups) ++
      match move_path with
      | Some mp => if decide (mp = "") then [] else [MovedTo (os_path.join mp "duplicates")]
      | None => []
      end
  end.

(** [compare_images]: how it ends, the state it leaves, and what it printed. *)
Definition compare_images (folder_path : string) (move_path : option string)
    (s : state) : outcome unit * state * list output :=
  let images := find_images folder_path in
  let n_images := Z.of_nat (length images) in
  let '(hash_dict, lines) := fingerprint_phase images in
  let printed := Computing n_images :: (Progress <$> lines) ++ [Newline] in
  let exact_groups := group_exact_duplicates str hash_dict in
  match move_phase move_path exact_groups s with
  | (Raise e, s') => (Raise e, s', printed)
  | (Return _, s') =>
      let total_time := (time_at (n_images + 1) - time_at 0)%Qc in
      (Return (), s',
       printed ++ report folder_path move_path exact_groups ++ [Completed total_time])
  end.

(** The script body: the exit status, the state left, and the output.  An
    exception that nothing catches ends the process with status 1. *)
Definition main (argv : list string) (s : state) : Z * state * list output :=
  let n := length argv in
  if decide (n ∉ [2; 4] ∨ (n = 4 ∧ argv !! 2 ≠ Some "-m")) then
    (1%Z, s, [Usage usage_text])
  else
    let folder := default "" (argv !! 1) in
    let move_folder := if decide (n = 4) then argv !! 3 else None in
    match compare_images folder move_folder s with
    | (Return _, s', printed) => (0%Z, s', printed)
    | (Raise _, s', printed) => (1%Z, s', printed)
    end.
End pipeline.

(** ** Vocabulary of the statements *)

(** [dest] is a name [move_duplicate] gives to [src] inside [dir]: the base
    name of [src], or that name numbered before its extension. *)
Definition quarantined (dir src dest : string) : Prop :=
  dest = os_path.join dir (os_path.basename src) ∨
  ∃ k, (1 ≤ k)%Z ∧
    dest = numbered dir (os_path.splitext (os_path.basename src)).1
             (os_path.splitext (os_path.basename src)).2 k.

(** [t] holds no slash. *)
Definition slashless (t : string) : Prop := PyStr.rfind "/" t = (-1)%Z.

(** [dir] is a name, spelled without a slash at its end. *)
Definition canonical (dir : string) : Prop :=
  dir ≠ "" ∧ PyStr.endswith "/" dir = false.

(** [dir] is a directory that can be written to. *)
Definition ready (fs : gmap string entry) (dir : Path) : Prop :=
  ∃ z, fs !! dir = Some (Entry z (Directory true)).


(** [s0] is [s] with new directories, and nothing else is different. *)
Definition grown (s s0 : state) : Prop :=
  relocations s0 = relocations s ∧
  (∀ q e, files s !! q = Some e → files s0 !! q = Some e) ∧
  (∀ q e, files s0 !! q = Some e → files s !! q = None → e = fresh_dir).




(** The ETA as the specification words it: the time elapsed since the
    start, divided by the number [i] of items done, times the number of
    items left. *)
Definition eta_after (time_at : Z → Qc) (n i : Z) : Qc :=
  ((time_at i - time_at 0%Z) / Qc_of_Z i * Qc_of_Z (n - i))%Qc.

(** The two accepted shapes of the command line. *)
Definition accepted (argv : list string) : Prop :=
  (∃ prog folder, argv = [prog; folder]) ∨
  (∃ prog folder dest, argv = [prog; folder; "-m"; dest]).

(** The byte size of the entry at [p] in state [s] (0 when there is none). *)
Definition size_at (s : state) (p : Path) : Z :=
  default 0%Z (byte_size <$> files s !! p).

(** ** A sample folder

    Three copies of one picture and two of another, one unreadable picture
    and a text file; the two copies of the second picture tie on byte size. *)

Definition demo_str (h : string) : string := h.

Definition demo_phash (p : Path) : outcome string :=
  if decide (p ∈ ["in/a.jpg"; "in/b.jpg"; "in/z.jpg"]) then Return "c3d4"
  else if decide (p ∈ ["in/c.jpg"; "in/sub/d.png"]) then Return "0f0f"
  else Raise (ImageError p).

Definition demo_time (i : Z) : Qc := Qc_of_Z (2 * i).

(** A clock that is set back while the hashes are computed. *)
Definition demo_time_back (i : Z) : Qc := Qc_of_Z (10 - 2 * i).

Definition demo_walk (folder : string) : list (string * list string * list string) :=
  if decide (folder = "in") then
    [("in", ["sub"], ["a.jpg"; "b.jpg"; "notes.txt"; "e.GIF"; "c.jpg"; "z.jpg"]);
     ("in/sub", [], ["d.png"])]
  else [].

Definition demo_files : gmap string entry :=
  list_to_map
    [(".", Entry 4096 (Directory true)); ("in", Entry 4096 (Directory true));
     ("in/sub", Entry 4096 (Directory true));
     ("in/a.jpg", Entry 500 (Regular Movable)); ("in/b.jpg", Entry 400 (Regular Movable));
     ("in/notes.txt", Entry 1 (Regular Movable)); ("in/e.GIF", Entry 10 (Regular Movable));
     ("in/c.jpg", Entry 300 (Regular Movable));
     ("in/sub/d.png", Entry 300 (Regular Movable));
     ("in/z.jpg", Entry 100 (Regular Movable))].


(** The folder once the quarantine directory [out/duplicates] is made. *)
Definition quarantine_made (fs : gmap string entry) : gmap string entry :=
  <["out/duplicates" := fresh_dir]> (<["out" := fresh_dir]> fs).

(** The same folder when the move of [in/b.jpg] is refused, and when
    [in/b.jpg] is gone. *)
Definition blocked_files : gmap string entry :=
  <["in/b.jpg" := Entry 400 (Regular Refused)]> demo_files.

Definition vanished_files : gmap string entry := delete "in/b.jpg" demo_files.




Definition demo_groups : list (list Path) :=
  [["in/a.jpg"; "in/b.jpg"; "in/z.jpg"]; ["in/c.jpg"; "in/sub/d.png"]].

Definition demo_hashes : list (Path * option string) :=
  [("in/a.jpg", Some "c3d4"); ("in/b.jpg", Some "c3d4"); ("in/e.GIF", None);
   ("in/c.jpg", Some "0f0f"); ("in/z.jpg", Some "c3d4"); ("in/sub/d.png", Some "0f0f")].

Definition demo_hashes_shuffled : list (Path * option string) :=
  [("in/sub/d.png", Some "0f0f"); ("in/b.jpg", Some "c3d4"); ("in/c.jpg", Some "0f0f");
   ("in/e.GIF", None); ("in/z.jpg", Some "c3d4"); ("in/a.jpg", Some "c3d4")].

(** A quarantine directory where two names are already taken, one by a
    file and one by a directory. *)
Definition crowded_files : gmap string entry :=
  <["out/duplicates/b.jpg" := Entry 7 (Regular Movable)]>
    (<["out/duplicates/b_1.jpg" := Entry 4096 (Directory true)]>
       (quarantine_made demo_files)).


(** * Verification *)

(** *** Facts on dictionaries *)

Section dict_facts.
Context {K V : Type} `{!EqDecision K}.
Implicit Types (d : list (K * V)) (k : K) (v : V).

Lemma get_None d k : PyDict.get d k = None ↔ k ∉ d.*1.
Proof.
  induction d as [|[k' v'] d IH]; simpl.
  - split; [intros _; apply not_elem_of_nil | done].
  - case_decide; subst.
    + split; [done | intros []; left].
    + rewrite IH, not_elem_of_cons.
      split; [intros ?; split; [congruence | done] | by intros [_ ?]].
Qed.

Lemma get_Some d k v : NoDup d.*1 → PyDict.get d k = Some v ↔ (k, v) ∈ d.
Proof.
  induction d as [|[k' v'] d IH]; simpl; intros Hnd.
  - split; [done | intros ?%elem_of_nil; done].
  - apply NoDup_cons in Hnd as [Hk' Hnd]. case_decide; subst.
    + split.
      * intros [= ->]. left.
      * intros [[= ->]|Hin]%elem_of_cons; [done|].
        destruct Hk'. apply list_elem_of_fmap. by exists (k, v).
    + rewrite IH by done. rewrite elem_of_cons.
      split; [by right | intros [[= -> ->]|?]; done].
Qed.

Lemma set_keys d k v :
  (PyDict.set d k v).*1 = if decide (k ∈ d.*1) then d.*1 else d.*1 ++ [k].
Proof.
  induction d as [|[k' v'] d IH]; csimpl.
  - destruct (decide (k ∈ [])) as [H|H]; [by apply elem_of_nil in H | done].
  - destruct (decide (k' = k)) as [->|Hk]; csimpl.
    + rewrite decide_True by left. done.
    + rewrite IH. destruct (decide (k ∈ d.*1)) as [Hin|Hin].
      * rewrite decide_True by (by right). done.
      * rewrite decide_False; [done|]. rewrite elem_of_cons. intros [?|?]; congruence.
Qed.

Lemma set_NoDup d k v : NoDup d.*1 → NoDup (PyDict.set d k v).*1.
Proof.
  intros Hnd. rewrite set_keys. case_decide; [done|].
  apply NoDup_app. split_and!; [done | | apply NoDup_singleton].
  intros x Hx ->%list_elem_of_singleton. done.
Qed.

Lemma get_set d k k' v :
  PyDict.get (PyDict.set d k v) k' = if decide (k = k') then Some v else PyDict.get d k'.
Proof.
  induction d as [|[k0 v0] d IH]; simpl.
  - repeat case_decide; congruence.
  - repeat (case_decide; simpl; subst); congruence.
Qed.
End dict_facts.

(** *** Facts on grouping *)

Section grouping_facts.
Context {Fingerprint : Type} (str : Fingerprint → string).
Implicit Types (d : list (Path * option Fingerprint)) (g : list Path) (k : string).

Lemma members_snoc k d p ph :
  members str k (d ++ [(p, ph)]) =
  members str k d ++
    match ph with
    | Some h => if decide (str h = k) then [p] else []
    | None => []
    end.
Proof.
  unfold members. rewrite omap_app. f_equal. simpl.
  destruct ph as [h|]; [|done]. by destruct (decide (str h = k)).
Qed.

Lemma elem_of_members k d p :
  p ∈ members str k d ↔ ∃ h, (p, Some h) ∈ d ∧ str h = k.
Proof.
  unfold members. rewrite list_elem_of_omap. split.
  - intros [[q [h|]] [Hin Heq]]; simpl in *; [|done].
    destruct (decide (str h = k)); [|done]. injection Heq as ->. eauto.
  - intros (h & Hin & Hk). exists (p, Some h). split; [done|].
    simpl. by rewrite decide_True.
Qed.

Lemma members_NoDup k d : NoDup d.*1 → NoDup (members str k d).
Proof.
  induction d as [|[p ph] d IH]; csimpl; intros Hnd; [constructor|].
  apply NoDup_cons in Hnd as [Hp Hnd]. unfold members in *. csimpl.
  destruct ph as [h|]; simpl; [|by apply IH].
  destruct (decide (str h = k)); [|by apply IH].
  apply NoDup_cons. split; [|by apply IH].
  intros (h' & Hin & _)%elem_of_members. apply Hp.
  apply list_elem_of_fmap. by exists (p, Some h').
Qed.

(** The dictionary built by the loop: one entry per occurring key, holding
    the paths with that key in first-seen order. *)
Lemma mapping_spec d :
  let mapping := foldl (group_step str) [] d in
  NoDup mapping.*1 ∧
  ∀ k, PyDict.get mapping k =
       match members str k d with [] => None | g => Some g end.
Proof.
  induction d as [|[p ph] d [IHnd IHget]] using rev_ind; simpl.
  { split; [constructor | done]. }
  rewrite foldl_snoc. set (m := foldl (group_step str) [] d) in *.
  destruct ph as [h|]; simpl.
  - split; [by apply set_NoDup|]. intros k.
    rewrite get_set, members_snoc.
    destruct (decide (str h = k)) as [<-|Hne].
    + rewrite IHget. by destruct (members str (str h) d).
    + by rewrite IHget, app_nil_r.
  - split; [done|]. intros k. by rewrite members_snoc, app_nil_r.
Qed.

Lemma elem_of_group_exact_duplicates d g :
  g ∈ group_exact_duplicates str d ↔
  ∃ k, g = members str k d ∧ 1 < length g.
Proof.
  unfold group_exact_duplicates, PyDict.items, PyDict.values.
  destruct (mapping_spec d) as [Hnd Hget].
  set (m := foldl (group_step str) [] d) in *.
  rewrite list_elem_of_filter, list_elem_of_fmap. split.
  - intros [Hlen [[k g'] [-> Hin]]]. simpl in *. exists k. split; [|done].
    apply get_Some in Hin; [|done]. rewrite Hget in Hin.
    by destruct (members str k d); simplify_eq.
  - intros [k [-> Hlen]]. split; [done|].
    exists (k, members str k d). split; [done|].
    apply get_Some; [done|]. rewrite Hget.
    by destruct (members str k d); [simpl in Hlen; lia|].
Qed.
End grouping_facts.

Section concat_facts.
Context {A : Type}.
Implicit Types (gs : list (list A)).

Lemma elem_of_concat gs x : x ∈ concat gs ↔ ∃ g, g ∈ gs ∧ x ∈ g.
Proof.
  induction gs as [|g gs IH]; simpl.
  - split; [by intros ?%elem_of_nil | by intros (? & ?%elem_of_nil & _)].
  - rewrite elem_of_app, IH. split.
    + intros [?|(g' & ? & ?)]; [exists g | exists g']; split; try done;
        [left | by right].
    + intros (g' & [->|?]%elem_of_cons & ?); [by left | right; eauto].
Qed.

Lemma NoDup_concat_filter (P : list A → Prop) `{!∀ g, Decision (P g)} gs :
  NoDup (concat gs) → NoDup (concat (filter P gs)).
Proof.
  induction gs as [|g gs IH]; simpl; [done|].
  rewrite NoDup_app. intros (Hg & Hdisj & Hgs).
  rewrite filter_cons. destruct (decide (P g)); simpl; [|by apply IH].
  apply NoDup_app. split_and!; [done | | by apply IH].
  intros x Hx (g' & [_ Hg']%list_elem_of_filter & Hxg')%elem_of_concat.
  apply (Hdisj x Hx), elem_of_concat. eauto.
Qed.

Lemma two_elems_length (l : list A) x y : x ∈ l → y ∈ l → x ≠ y → 1 < length l.
Proof.
  destruct l as [|a [|b l]]; simpl; [by intros ?%elem_of_nil | | lia].
  intros ->%list_elem_of_singleton ->%list_elem_of_singleton. done.
Qed.
End concat_facts.

Section grouping_partition.
Context {Fingerprint : Type} (str : Fingerprint → string).
Implicit Types (d : list (Path * option Fingerprint)) (g : list Path) (k : string).

Lemma NoDup_concat_values d (m : list (string * list Path)) :
  NoDup d.*1 → NoDup m.*1 →
  (∀ k g, (k, g) ∈ m → g = members str k d) →
  NoDup (concat m.*2).
Proof.
  intros Hd. induction m as [|[k g] m IH]; csimpl; intros Hnd Hm; [constructor|].
  apply NoDup_cons in Hnd as [Hk Hnd]. apply NoDup_app. split_and!.
  - rewrite (Hm k g) by left. by apply members_NoDup.
  - intros p Hp (g' & [[k' g''] [-> Hin]]%list_elem_of_fmap & Hpg')%elem_of_concat.
    simpl in *. rewrite (Hm k g) in Hp by left.
    rewrite (Hm k' g'') in Hpg' by (by right).
    apply elem_of_members in Hp as (h & Hh & <-).
    apply elem_of_members in Hpg' as (h' & Hh' & <-).
    apply get_Some in Hh, Hh'; try done.
    assert (h' = h) as -> by congruence.
    apply Hk, list_elem_of_fmap. by exists (str h, g'').
  - apply IH; [done|]. intros k' g' Hin. apply Hm. by right.
Qed.

Lemma group_exact_duplicates_NoDup d :
  NoDup d.*1 → NoDup (concat (group_exact_duplicates str d)).
Proof.
  intros Hd. unfold group_exact_duplicates, PyDict.items, PyDict.values.
  destruct (mapping_spec str d) as [Hnd Hget].
  apply NoDup_concat_filter, (NoDup_concat_values d); [done..|].
  intros k g Hin. apply get_Some in Hin; [|done]. rewrite Hget in Hin.
  by destruct (members str k d); simplify_eq.
Qed.

End grouping_partition.

Section grouping_claims.
Context {Fingerprint : Type} (str : Fingerprint → string).
Implicit Types (d : list (Path * option Fingerprint)) (g : list Path) (k : string).

Lemma members_Permutation k d1 d2 :
  d1 ≡ₚ d2 → members str k d1 ≡ₚ members str k d2.
Proof. intros Hp. unfold members. by rewrite Hp. Qed.

Lemma elem_of_groups_as_sets d (X : gset Path) :
  X ∈ groups_as_sets (group_exact_duplicates str d) ↔
  ∃ k, X = list_to_set (members str k d) ∧ 1 < length (members str k d).
Proof.
  unfold groups_as_sets. rewrite elem_of_list_to_set, list_elem_of_fmap. split.
  - intros (g & -> & (k & -> & Hlen)%elem_of_group_exact_duplicates). eauto.
  - intros (k & -> & Hlen). exists (members str k d). split; [done|].
    apply elem_of_group_exact_duplicates. eauto.
Qed.

(** C1.  On a dictionary (keys pairwise distinct) whose fingerprints print
    injectively, the groups returned are exactly the classes of at least two
    paths with equal fingerprints: every group has two or more paths; no
    path occurs twice, be it in one group or in two; a path whose
    fingerprint is [None] is in no group; and two distinct paths share a
    group if and only if both have a fingerprint and the two are equal. *)
Theorem group_exact_duplicates_classes
    (str_inj : ∀ h1 h2, str h1 = str h2 → h1 = h2) d :
  NoDup d.*1 →
  let groups := group_exact_duplicates str d in
  (∀ g, g ∈ groups → 2 ≤ length g) ∧
  NoDup (concat groups) ∧
  (∀ p g, PyDict.get d p = Some None → g ∈ groups → p ∉ g) ∧
  (∀ p q, p ≠ q →
     (∃ g, g ∈ groups ∧ p ∈ g ∧ q ∈ g) ↔
     (∃ h, PyDict.get d p = Some (Some h) ∧ PyDict.get d q = Some (Some h))).
Proof.
  intros Hd groups. subst groups. split_and!.
  - intros g (k & -> & Hlen)%elem_of_group_exact_duplicates. lia.
  - by apply group_exact_duplicates_NoDup.
  - intros p g Hp (k & -> & _)%elem_of_group_exact_duplicates
      (h & Hin & _)%elem_of_members.
    apply get_Some in Hin; [|done]. congruence.
  - intros p q Hpq. split.
    + intros (g & (k & -> & _)%elem_of_group_exact_duplicates & Hp & Hq).
      apply elem_of_members in Hp as (hp & Hp & Hkp).
      apply elem_of_members in Hq as (hq & Hq & Hkq).
      assert (hq = hp) as -> by (apply str_inj; congruence).
      exists hp. by rewrite !get_Some.
    + intros (h & Hp & Hq). apply get_Some in Hp, Hq; try done.
      assert (p ∈ members str (str h) d) as Hp' by (apply elem_of_members; eauto).
      assert (q ∈ members str (str h) d) as Hq' by (apply elem_of_members; eauto).
      exists (members str (str h) d). split_and!; try done.
      apply elem_of_group_exact_duplicates. exists (str h). split; [done|].
      by apply (two_elems_length _ p q).
Qed.

(** C6.  Permuting the items of the input leaves the set of groups
    unchanged, each group being read as a set of paths. *)
Theorem group_exact_duplicates_permutation d1 d2 :
  d1 ≡ₚ d2 →
  groups_as_sets (group_exact_duplicates str d1) =
  groups_as_sets (group_exact_duplicates str d2).
Proof.
  intros Hp. apply set_eq. intros X. rewrite !elem_of_groups_as_sets.
  assert (∀ k, list_to_set (members str k d1) =@{gset Path} list_to_set (members str k d2)
             ∧ length (members str k d1) = length (members str k d2)) as Hk.
  { intros k. pose proof (members_Permutation k _ _ Hp) as Hm. split.
    - apply set_eq. intros x. rewrite !elem_of_list_to_set. by rewrite Hm.
    - by rewrite Hm. }
  split; intros (k & -> & Hlen); exists k; destruct (Hk k) as [Hs Hl].
  - split; [done | lia].
  - split; [done | lia].
Qed.
End grouping_claims.

(** ** Paths and the choice of a destination *)

Section path_facts.
Implicit Types (p s t : string) (c x : ascii).

Lemma app_cons x s t : String x s +:+ t = String x (s +:+ t).
Proof. reflexivity. Qed.

Lemma string_app_nil_r s : s +:+ "" = s.
Proof. induction s as [|x s IH]; [done|]. by rewrite app_cons, IH. Qed.

Lemma string_app_assoc s t u : (s +:+ t) +:+ u = s +:+ t +:+ u.
Proof. induction s as [|x s IH]; [done|]. by rewrite !app_cons, IH. Qed.

Lemma upto_from n p : PyStr.upto n p +:+ PyStr.from n p = p.
Proof.
  revert p. induction n as [|n IH]; intros [|x p]; try reflexivity.
  simpl. by rewrite app_cons, IH.
Qed.

Lemma splitext_app p : (os_path.splitext p).1 +:+ (os_path.splitext p).2 = p.
Proof.
  unfold os_path.splitext. case_decide; [|apply string_app_nil_r].
  destruct (PyStr.all_dots _); [apply string_app_nil_r|]. apply upto_from.
Qed.

Lemma string_app_length s t : String.length (s +:+ t) = String.length s + String.length t.
Proof. induction s as [|x s IH]; [done|]. rewrite app_cons. simpl. by rewrite IH. Qed.

Lemma string_app_inj_r t s1 s2 : s1 +:+ t = s2 +:+ t → s1 = s2.
Proof.
  intros Heq. assert (String.length s1 = String.length s2) as Hlen.
  { apply (f_equal String.length) in Heq. rewrite !string_app_length in Heq. lia. }
  revert s2 Heq Hlen. induction s1 as [|x s1 IH]; intros [|y s2] Heq Hlen;
    simpl in Hlen; try done.
  rewrite !app_cons in Heq. injection Heq as -> Heq. f_equal. apply IH; [done | lia].
Qed.

Lemma string_prefix_nil s : String.prefix "" s = true.
Proof. by destruct s. Qed.

Lemma startswith_slash_app base t :
  PyStr.startswith "/" (base +:+ "_" +:+ t) = PyStr.startswith "/" (base +:+ "_").
Proof.
  destruct base as [|x base]; [reflexivity|]. unfold PyStr.startswith.
  rewrite !app_cons. cbn [String.prefix].
  destruct (ascii_dec _ _); [|done]. by rewrite !string_prefix_nil.
Qed.

Lemma join_inj dir b1 b2 :
  PyStr.startswith "/" b1 = PyStr.startswith "/" b2 →
  os_path.join dir b1 = os_path.join dir b2 → b1 = b2.
Proof.
  unfold os_path.join. intros <-. destruct (PyStr.startswith "/" b1); [done|].
  repeat case_match; intros Heq; repeat apply String.app_inj in Heq; done.
Qed.

Lemma numbered_inj dir base ext : Inj (=) (=) (numbered dir base ext).
Proof.
  intros i j Heq. unfold numbered in Heq. apply join_inj in Heq.
  - apply String.app_inj, String.app_inj, string_app_inj_r in Heq.
    by apply (inj pretty).
  - by rewrite !(startswith_slash_app base).
Qed.

(** *** The last slash of a path *)

Lemma rfind_ge c p : (-1 ≤ PyStr.rfind c p)%Z.
Proof. induction p as [|x p IH]; simpl; [lia|]. repeat case_decide; lia. Qed.

Lemma rfind_app c s t :
  PyStr.rfind c (s +:+ t) =
  if decide (0 ≤ PyStr.rfind c t)%Z
  then (Z.of_nat (String.length s) + PyStr.rfind c t)%Z
  else PyStr.rfind c s.
Proof.
  induction s as [|x s IH].
  - change ("" +:+ t) with t. pose proof (rfind_ge c t). simpl. case_decide; lia.
  - rewrite app_cons. cbn [PyStr.rfind String.length]. rewrite IH.
    pose proof (rfind_ge c s). repeat case_decide; lia.
Qed.

Lemma upto_app s t : PyStr.upto (String.length s) (s +:+ t) = s.
Proof. induction s as [|x s IH]; [by destruct t|]. rewrite app_cons. simpl. by rewrite IH. Qed.

Lemma slashless_app s t : slashless (s +:+ t) ↔ slashless s ∧ slashless t.
Proof.
  unfold slashless. rewrite rfind_app.
  pose proof (rfind_ge "/" s). pose proof (rfind_ge "/" t). case_decide; lia.
Qed.

Lemma slashless_cons x s : x ≠ "/"%char → slashless s → slashless (String x s).
Proof. unfold slashless. intros Hx Hs. simpl. rewrite Hs. by repeat case_decide. Qed.

Lemma slashless_basename p : slashless (os_path.basename p).
Proof.
  unfold slashless, os_path.basename. induction p as [|x p IH]; [done|].
  pose proof (rfind_ge "/" p). cbn [PyStr.rfind].
  destruct (decide (0 ≤ PyStr.rfind "/" p)%Z) as [Hr|Hr].
  - replace (Z.to_nat (PyStr.rfind "/" p + 1 + 1))
      with (S (Z.to_nat (PyStr.rfind "/" p + 1))) by lia.
    done.
  - assert (PyStr.rfind "/" p = (-1)%Z) as Hp by lia.
    destruct (decide (x = "/"%char)); simpl.
    + done.
    + rewrite Hp. rewrite decide_False by lia. by rewrite decide_False.
Qed.

Lemma slashless_pretty_N_go (n : N) s : slashless s → slashless (pretty_N_go n s).
Proof.
  revert s. induction (N.lt_wf_0 n) as [n _ IH]; intros s Hs.
  destruct (decide (n = 0%N)) as [->|Hn]; [by rewrite pretty_N_go_0|].
  rewrite pretty_N_go_step by lia. apply IH; [apply N.div_lt; lia|].
  apply slashless_cons; [|done]. unfold pretty_N_char. by repeat case_match.
Qed.

Lemma slashless_pretty (k : Z) : slashless (pretty k).
Proof.
  assert (∀ q : positive, slashless (pretty q)) as Hpos.
  { intros q. unfold pretty, pretty_positive, pretty, pretty_N.
    case_decide; [done|]. by apply slashless_pretty_N_go. }
  destruct k as [|q|q]; [done | apply Hpos |].
  change (pretty (Z.neg q)) with ("-" +:+ pretty q).
  apply slashless_app. split; [done | apply Hpos].
Qed.

Lemma slashless_startswith t : slashless t → PyStr.startswith "/" t = false.
Proof.
  unfold slashless, PyStr.startswith. destruct t as [|x t]; [done|].
  cbn [String.prefix PyStr.rfind].
  pose proof (rfind_ge "/" t). destruct (ascii_dec "/" x) as [<-|]; [|done].
  repeat case_decide; try lia; done.
Qed.

(** *** Trailing slashes *)

Lemma rev_app_append s t : String.rev_app s t = String.rev s +:+ t.
Proof.
  revert t. induction s as [|x s IH]; intros t; [done|].
  unfold String.rev. simpl. rewrite !IH. by rewrite string_app_assoc.
Qed.

Lemma endswith_cons x s :
  s ≠ "" → PyStr.endswith "/" (String x s) = PyStr.endswith "/" s.
Proof.
  intros Hs. unfold PyStr.endswith.
  change (String.rev "/") with "/".
  change (String.rev (String x s)) with (String.rev_app s (String x "")).
  rewrite rev_app_append. destruct (String.rev s) as [|y r] eqn:Hr.
  - destruct s as [|z s]; [done|]. unfold String.rev in Hr. simpl in Hr.
    rewrite rev_app_append in Hr. apply (f_equal String.length) in Hr.
    rewrite string_app_length in Hr. simpl in Hr. lia.
  - rewrite app_cons. cbn [String.prefix]. destruct (ascii_dec _ _); [|done].
    by rewrite !string_prefix_nil.
Qed.

Lemma rstrip_app_slash s : PyStr.rstrip "/" (s +:+ "/") = PyStr.rstrip "/" s.
Proof. induction s as [|x s IH]; [done|]. rewrite app_cons. simpl. by rewrite IH. Qed.

Lemma rstrip_no_slash s : PyStr.endswith "/" s = false → PyStr.rstrip "/" s = s.
Proof.
  induction s as [|x s IH]; [done|]. destruct (decide (s = "")) as [->|Hs].
  - intros Hx. simpl. rewrite decide_False; [done|]. intros [_ ->]. done.
  - rewrite endswith_cons by done. intros Hr%IH. simpl. rewrite Hr.
    rewrite decide_False; [done|]. by intros [? _].
Qed.

(** *** The directory that holds a name *)

Lemma join_canonical dir t :
  canonical dir → slashless t → os_path.join dir t = dir +:+ "/" +:+ t.
Proof.
  intros [Hne Hend] Ht. unfold os_path.join.
  by rewrite slashless_startswith, decide_False, Hend.
Qed.

Lemma holder_join dir t : canonical dir → slashless t → holder (os_path.join dir t) = dir.
Proof.
  intros Hdir Ht. rewrite join_canonical by done. destruct Hdir as [Hne Hend].
  unfold holder, os_path.dirname.
  assert (PyStr.rfind "/" (dir +:+ "/" +:+ t) = Z.of_nat (String.length dir)) as ->.
  { rewrite rfind_app. assert (PyStr.rfind "/" ("/" +:+ t) = 0%Z) as ->.
    { change ("/" +:+ t) with (String "/" t). simpl. rewrite Ht. done. }
    rewrite decide_True by lia. lia. }
  replace (Z.to_nat (Z.of_nat (String.length dir) + 1))
    with (String.length (dir +:+ "/")) by (rewrite string_app_length; simpl; lia).
  rewrite <-string_app_assoc, upto_app, rstrip_app_slash, rstrip_no_slash by done.
  rewrite (decide_False (P := dir = "")) by done. by rewrite decide_False.
Qed.

Lemma holder_quarantined dir src dest :
  canonical dir → quarantined dir src dest → holder dest = dir.
Proof.
  intros Hdir [->|(k & _ & ->)].
  - apply holder_join; [done | apply slashless_basename].
  - unfold numbered. apply holder_join; [done|].
    pose proof (slashless_basename src) as Hname.
    rewrite <-(splitext_app (os_path.basename src)) in Hname.
    apply slashless_app in Hname as [Hbase Hext].
    repeat (apply slashless_app; split); try done. apply slashless_pretty.
Qed.



End path_facts.

Section free_dest_facts.
Context (fs : gmap string entry) (dir base ext : string).

Lemma path_exists_true p :
  path_exists fs p = true ↔ ∃ e, fs !! p = Some e ∧ kind e ≠ DanglingLink.
Proof.
  unfold path_exists. destruct (fs !! p) as [[z k]|]; simpl.
  - destruct k; split; try done; eauto; by intros (e & [= <-] & ?).
  - split; [done | by intros (e & ? & _)].
Qed.


Lemma is_dir_exists p : is_dir fs p = true → path_exists fs p = true.
Proof. unfold is_dir, path_exists. by destruct (kind <$> fs !! p) as [[]|]. Qed.

Lemma free_dest_None fuel dest i :
  free_dest fuel fs dir base ext dest i = None →
  ∀ j, (i ≤ j < i + Z.of_nat fuel)%Z → path_exists fs (numbered dir base ext j) = true.
Proof.
  revert dest i. induction fuel as [|fuel IH]; intros dest i; simpl.
  - intros _ j ?. lia.
  - destruct (path_exists fs dest); [|done]. destruct fuel as [|fuel'].
    + simpl. destruct (path_exists fs (numbered dir base ext i)) eqn:Hi; [|done].
      intros _ j ?. by replace j with i by lia.
    + intros Hnone j Hj. destruct (decide (j = i)) as [->|Hne].
      * simpl in Hnone.
        by destruct (path_exists fs (numbered dir base ext i)).
      * apply (IH _ _ Hnone). lia.
Qed.

Lemma free_dest_Some fuel dest i d :
  free_dest fuel fs dir base ext dest i = Some d →
  path_exists fs d = false ∧
  ((path_exists fs dest = false ∧ d = dest) ∨
   (path_exists fs dest = true ∧
    ∃ k, (i ≤ k)%Z ∧ d = numbered dir base ext k ∧
         ∀ j, (i ≤ j < k)%Z → path_exists fs (numbered dir base ext j) = true)).
Proof.
  revert dest i. induction fuel as [|fuel IH]; intros dest i; simpl.
  - destruct (path_exists fs dest) eqn:He; [done|]. intros [= <-]. auto.
  - destruct (path_exists fs dest) eqn:He; [|intros [= <-]; auto].
    intros Hd. destruct (IH _ _ Hd) as [Hfree [[Hi ->]|[Hi (k & Hk & -> & Hlt)]]].
    + split; [done|]. right. split; [done|]. exists i. split_and!; [lia|done|].
      intros j ?. lia.
    + split; [done|]. right. split; [done|]. exists k. split_and!; [lia|done|].
      intros j Hj. destruct (decide (j = i)) as [->|]; [done|]. apply Hlt. lia.
Qed.

(** The numbered candidates are pairwise distinct, so the existing entries
    cannot take all of the first [size fs + 1] of them. *)
Lemma numbered_not_all_taken :
  ¬ ∀ j, (1 ≤ j < 1 + Z.of_nat (S (size fs)))%Z →
         path_exists fs (numbered dir base ext j) = true.
Proof.
  intros Hall.
  set (l := numbered dir base ext <$> seqZ 1 (Z.of_nat (S (size fs)))).
  assert (NoDup l) as Hnd.
  { pose proof (numbered_inj dir base ext) as Hinj.
    apply (NoDup_fmap_2 _), NoDup_seqZ. }
  assert (list_to_set l ⊆ dom fs) as Hsub.
  { intros p [j [-> Hj%elem_of_seqZ]]%elem_of_list_to_set%list_elem_of_fmap.
    apply elem_of_dom. destruct (proj1 (path_exists_true _) (Hall j ltac:(lia)))
      as (e & -> & _). done. }
  apply subseteq_size in Hsub.
  rewrite size_list_to_set, size_dom in Hsub by done.
  unfold l in Hsub. rewrite length_fmap, length_seqZ in Hsub. lia.
Qed.

Lemma free_dest_total dest :
  is_Some (free_dest (S (size fs)) fs dir base ext dest 1).
Proof.
  destruct (free_dest _ _ _ _ _ _ _) eqn:Hd; [done|].
  destruct numbered_not_all_taken. by apply (free_dest_None _ dest).
Qed.
End free_dest_facts.

(** ** [os.makedirs] *)

Section makedirs_facts.
Implicit Types (s : state) (p q d dir : string).

Lemma bind_unfold {A B} (m : M A) (f : A → M B) s :
  (m ≫= f) s =
  match m s with
  | (Return a, s') => f a s'
  | (Raise e, s') => (Raise e, s')
  end.
Proof. reflexivity. Qed.

Lemma grown_refl s : grown s s.
Proof. split_and!; [done | done |]. intros q e ? ?. congruence. Qed.

Lemma grown_trans s1 s2 s3 : grown s1 s2 → grown s2 s3 → grown s1 s3.
Proof.
  intros (Hr1 & Hk1 & Hn1) (Hr2 & Hk2 & Hn2). split_and!.
  - congruence.
  - intros q e He. by apply Hk2, Hk1.
  - intros q e He Hnone. destruct (files s2 !! q) as [e2|] eqn:H2.
    + rewrite (Hk2 q e2 H2) in He. injection He as <-. by apply (Hn1 q).
    + by apply (Hn2 q).
Qed.

Lemma mkdir_grown p s : grown s (mkdir p s).2.
Proof.
  unfold mkdir. case_decide; [apply grown_refl|].
  destruct (files s !! p) eqn:Hp; [apply grown_refl|].
  destruct (kind <$> files s !! holder p) as [[|[]|]|]; try apply grown_refl.
  split_and!; simpl; [done | |].
  - intros q e He. rewrite lookup_insert_ne; [done|]. congruence.
  - intros q e He Hnone. destruct (decide (p = q)) as [->|Hne].
    + rewrite lookup_insert_eq in He. congruence.
    + rewrite lookup_insert_ne in He by done. congruence.
Qed.

Lemma ensure_dir_grown last p s : grown s (ensure_dir last p s).2.
Proof.
  unfold ensure_dir. destruct (files s !! p) as [e|]; [|apply mkdir_grown].
  destruct (kind e); [destruct last | | destruct last]; apply grown_refl.
Qed.

Lemma make_chain_grown chain s : grown s (make_chain chain s).2.
Proof.
  revert s. induction chain as [|p rest IH]; intros s; [apply grown_refl|].
  simpl. rewrite bind_unfold.
  pose proof (ensure_dir_grown (bool_decide (rest = [])) p s) as Hg.
  destruct (ensure_dir _ p s) as [[[]|e] s1]; simpl in Hg; [|done].
  eapply grown_trans; [done | apply IH].
Qed.

(** [os.makedirs] changes no entry that is there: it adds directories. *)
Lemma makedirs_grown d s : grown s (makedirs d s).2.
Proof.
  unfold makedirs. destruct (is_dir _ _); [apply grown_refl | apply make_chain_grown].
Qed.

Lemma ensure_dir_last p s s0 :
  ensure_dir true p s = (Return (), s0) → is_dir (files s0) p = true.
Proof.
  unfold ensure_dir, is_dir. destruct (files s !! p) as [e|] eqn:Hp.
  - destruct (kind e) eqn:Hk; [done | | done]. intros [= <-]. by rewrite Hp; simpl; rewrite Hk.
  - unfold mkdir. case_decide; [done|]. rewrite Hp.
    destruct (kind <$> files s !! holder p) as [[|[]|]|]; try done.
    intros [= <-]. simpl. by rewrite lookup_insert_eq.
Qed.

Lemma make_chain_last chain d s s0 :
  last chain = Some d → make_chain chain s = (Return (), s0) →
  is_dir (files s0) d = true.
Proof.
  revert s. induction chain as [|p rest IH]; intros s; [done|].
  simpl. rewrite bind_unfold. destruct rest as [|p' rest'].
  - intros [= <-]. rewrite bool_decide_eq_true_2 by done.
    destruct (ensure_dir true p s) as [[[]|e] s1] eqn:He; [|done].
    intros [= <-]. by apply (ensure_dir_last p s).
  - intros Hlast. destruct (ensure_dir _ p s) as [[[]|e] s1]; [|done].
    by apply IH.
Qed.

(** When [os.makedirs] returns, the directory is there. *)
Lemma makedirs_is_dir d s s0 :
  makedirs d s = (Return (), s0) → is_dir (files s0) d = true.
Proof.
  unfold makedirs. destruct (is_dir (files s) d) eqn:Hd.
  - by intros [= <-].
  - apply make_chain_last. unfold lineage. by rewrite last_snoc.
Qed.

Lemma ready_is_dir fs d : ready fs d → is_dir fs d = true.
Proof. intros [z Hd]. unfold is_dir. by rewrite Hd. Qed.

Lemma makedirs_ready d s : ready (files s) d → makedirs d s = (Return (), s).
Proof. intros Hd. unfold makedirs. by rewrite ready_is_dir. Qed.

End makedirs_facts.

(** ** [move_duplicate] *)

Section move_duplicate_facts.
Implicit Types (s : state) (p q src dir dest : string).

Lemma choose_dest_total fs src dir : is_Some (choose_dest fs src dir).
Proof.
  unfold choose_dest. destruct (os_path.splitext _) as [base ext].
  apply free_dest_total.
Qed.

Lemma choose_dest_fresh fs src dir dest :
  choose_dest fs src dir = Some dest → path_exists fs dest = false.
Proof.
  unfold choose_dest. destruct (os_path.splitext _) as [base ext].
  by intros [Hfree _]%free_dest_Some.
Qed.

Lemma choose_dest_quarantined fs src dir dest :
  choose_dest fs src dir = Some dest → quarantined dir src dest.
Proof.
  unfold choose_dest, quarantined.
  destruct (os_path.splitext _) as [base ext].
  intros [_ [[_ ->]|[_ (k & Hk & -> & _)]]]%free_dest_Some; [by left|].
  right. by exists k.
Qed.

(** The bound on the rounds of the loop is never reached. *)
Lemma find_dest_bounded src dir s : (find_dest src dir s).1 ≠ Raise Unbounded.
Proof.
  unfold find_dest. by destruct (choose_dest_total (files s) src dir) as [dest ->].
Qed.

Lemma find_dest_total src dir s :
  ∃ dest, find_dest src dir s = (Return dest, s) ∧
          choose_dest (files s) src dir = Some dest.
Proof.
  unfold find_dest. destruct (choose_dest_total (files s) src dir) as [dest ->]. eauto.
Qed.

(** [move_duplicate] once the directory is made and the name chosen. *)
Lemma move_duplicate_unfold src dir s s0 dest :
  makedirs dir s = (Return (), s0) →
  choose_dest (files s0) src dir = Some dest →
  move_duplicate src dir s = move_entry src dest s0.
Proof.
  intros Hmk Hdest. unfold move_duplicate. rewrite bind_unfold, Hmk.
  rewrite bind_unfold. unfold find_dest. rewrite Hdest. unfold shutil_move.
  apply choose_dest_fresh in Hdest.
  destruct (is_dir (files s0) dest) eqn:Hd; [|done].
  apply is_dir_exists in Hd. congruence.
Qed.

Lemma move_duplicate_unmade src dir s e s0 :
  makedirs dir s = (Raise e, s0) → move_duplicate src dir s = (Raise e, s0).
Proof. intros Hmk. unfold move_duplicate. by rewrite bind_unfold, Hmk. Qed.

End move_duplicate_facts.

Section move_entry_facts.
Implicit Types (s : state) (p q src dir dst dest : string).

(** What [move_entry] does when it returns, and when it raises. *)
Lemma move_entry_returns src dst s s' :
  move_entry src dst s = (Return (), s') →
  relocations s' = relocations s ++ [(src, dst)] ∧
  ∃ e, files s !! src = Some e ∧ files s' !! dst = Some e ∧
       (∀ m, kind e = Regular m → src ≠ dst → files s' !! src = None).
Proof.
  unfold move_entry. destruct (files s !! src) as [e|] eqn:He; [|done].
  repeat case_match; try done; intros [= <-]; simpl; (split; [done|]); exists e;
    rewrite lookup_insert_eq; (split_and!; [done..|]); intros m' Hm Hne; try congruence.
  all: rewrite lookup_insert_ne by done; apply lookup_delete_eq.
Qed.

Lemma move_entry_raises src dst s x s' :
  move_entry src dst s = (Raise x, s') → relocations s' = relocations s.
Proof.
  unfold move_entry. repeat case_match; try done; by intros [= _ <-].
Qed.

End move_entry_facts.

Section move_duplicate_claim.
Implicit Types (s : state) (p q src dir dest : string).

End move_duplicate_claim.

(** ** The move phase *)

Section move_phase_facts.
Implicit Types (s : state) (p q o dir dest : string) (sz : Path → Z).












End move_phase_facts.

Section move_phase_claims.
Context {Fingerprint : Type} (str : Fingerprint → string).
Implicit Types (s : state) (p q o dir dest : string) (sz : Path → Z).
Implicit Types (d : list (Path * option Fingerprint)).



End move_phase_claims.

(** *** Failures *)

Section move_phase_failures.
Implicit Types (s : state) (p q o dir dest : string).

Lemma getsize_cases s p :
  (path_exists (files s) p = true ∧
   ∃ e, files s !! p = Some e ∧ getsize p s = (Return (byte_size e), s)) ∨
  (path_exists (files s) p = false ∧ getsize p s = (Raise (FileNotFoundError p), s)).
Proof.
  unfold path_exists, getsize. destruct (files s !! p) as [e|]; simpl; [|by right].
  destruct (kind e); [left | left | right]; eauto.
Qed.

Lemma max_loop_missing s best best_key l :
  (∃ p, p ∈ l ∧ path_exists (files s) p = false) →
  ∃ q, q ∈ l ∧ path_exists (files s) q = false ∧
       max_loop getsize best best_key l s = (Raise (FileNotFoundError q), s).
Proof.
  revert best best_key. induction l as [|p l IH]; intros best best_key.
  { by intros (p & ?%elem_of_nil & _). }
  intros (q & Hq & Hmiss). simpl. rewrite bind_unfold.
  destruct (getsize_cases s p) as [[Hex (e & He & ->)]|[Hex ->]].
  - assert (∃ p', p' ∈ l ∧ path_exists (files s) p' = false) as Hex'.
    { exists q. split; [|done]. apply elem_of_cons in Hq as [->|]; [congruence|done]. }
    case_decide.
    + destruct (IH p (byte_size e) Hex') as (q' & ? & ? & ->).
      exists q'. split_and!; [by right | done | done].
    + destruct (IH best best_key Hex') as (q' & ? & ? & ->).
      exists q'. split_and!; [by right | done | done].
  - exists p. split_and!; [left | done | done].
Qed.

(** A failed size lookup ends [move_group] before anything is moved. *)
Lemma move_group_missing s dir group :
  (∃ p, p ∈ group ∧ path_exists (files s) p = false) →
  ∃ q, q ∈ group ∧ path_exists (files s) q = false ∧
       move_group dir group s = (Raise (FileNotFoundError q), s).
Proof.
  intros Hex. unfold move_group. rewrite bind_unfold.
  destruct group as [|p l]; [by destruct Hex as (p & ?%elem_of_nil & _)|].
  simpl. rewrite bind_unfold.
  destruct (getsize_cases s p) as [[Hp (e & He & ->)]|[Hp ->]].
  - destruct (max_loop_missing s p (byte_size e) l) as (q & ? & ? & ->).
    { destruct Hex as (q & [->|?]%elem_of_cons & ?); [congruence | eauto]. }
    exists q. split_and!; [by right | done | done].
  - exists p. split_and!; [left | done | done].
Qed.

(** A move that the operating system refuses raises, and records nothing. *)
Lemma move_duplicate_refused s dir img e :
  files s !! img = Some e →
  kind e = Regular Refused ∨ kind e = Regular Pinned →
  ∃ x s1, move_duplicate img dir s = (Raise x, s1) ∧ relocations s1 = relocations s.
Proof.
  intros He Hk. pose proof (makedirs_grown dir s) as (Hrel & Hkeep & _).
  destruct (makedirs dir s) as [[[]|x] s0] eqn:Hmk; simpl in *.
  - destruct (find_dest_total img dir s0) as (dest & _ & Hdest).
    rewrite (move_duplicate_unfold img dir s s0 dest) by done.
    destruct (move_entry img dest s0) as [[[]|x] s1] eqn:Hmv.
    + exfalso. revert Hmv. unfold move_entry. rewrite (Hkeep _ _ He).
      destruct Hk as [-> | ->]; [done|]. by repeat case_match.
    + exists x, s1. split; [done|]. apply move_entry_raises in Hmv. congruence.
  - exists x, s0. split; [by apply move_duplicate_unmade | done].
Qed.

Lemma move_duplicate_blocked s dir img e :
  files s !! img = Some e → kind e = Regular Refused → ready (files s) dir →
  move_duplicate img dir s = (Raise (PermissionError img), s).
Proof.
  intros He Hk Hr.
  destruct (find_dest_total img dir s) as (dest & _ & Hdest).
  rewrite (move_duplicate_unfold img dir s s dest) by (by try apply makedirs_ready).
  unfold move_entry. by rewrite He, Hk.
Qed.

(** A file that can be copied and not removed: the copy stays behind. *)
Lemma move_duplicate_pinned s dir img e :
  files s !! img = Some e → kind e = Regular Pinned →
  canonical dir → ready (files s) dir →
  ∃ dest, quarantined dir img dest ∧ path_exists (files s) dest = false ∧
    move_duplicate img dir s =
      (Raise (PermissionError img),
       {| files := <[dest := Entry (byte_size e) (Regular Movable)]> (files s);
          relocations := relocations s |}).
Proof.
  intros He Hk Hdir Hr.
  destruct (find_dest_total img dir s) as (dest & _ & Hdest).
  pose proof (choose_dest_quarantined _ _ _ _ Hdest) as Hq.
  exists dest. split_and!; [done | by apply choose_dest_fresh in Hdest |].
  rewrite (move_duplicate_unfold img dir s s dest) by (by try apply makedirs_ready).
  unfold move_entry. rewrite He, Hk, (holder_quarantined dir img dest) by done.
  by destruct Hr as [z ->].
Qed.

Lemma move_others_app o dir pre rest s s1 :
  move_others o dir pre s = (Return (), s1) →
  move_others o dir (pre ++ rest) s = move_others o dir rest s1.
Proof.
  revert s. induction pre as [|img pre IH]; intros s; simpl.
  { by intros [= <-]. }
  rewrite !bind_unfold. destruct (decide (img ≠ o)).
  - destruct (move_duplicate img dir s) as [[[]|e] s0]; [apply IH | done].
  - apply IH.
Qed.

(** A failed move ends the loop over the group on the spot. *)
Lemma move_others_abort o dir pre img rest s s1 x s2 :
  move_others o dir pre s = (Return (), s1) →
  img ≠ o → move_duplicate img dir s1 = (Raise x, s2) →
  move_others o dir (pre ++ img :: rest) s = (Raise x, s2).
Proof.
  intros Hpre Hne Hmv. rewrite (move_others_app _ _ _ _ _ _ Hpre). simpl.
  by rewrite bind_unfold, decide_True, Hmv.
Qed.

(** An exception in one group ends the loop over the groups on the spot. *)
Lemma move_groups_abort dir gs1 g gs2 s s1 e s2 :
  move_groups dir gs1 s = (Return (), s1) →
  move_group dir g s1 = (Raise e, s2) →
  move_groups dir (gs1 ++ g :: gs2) s = (Raise e, s2).
Proof.
  revert s. induction gs1 as [|g1 gs1 IH]; intros s; simpl.
  - intros [= <-] Hg. by rewrite bind_unfold, Hg.
  - rewrite !bind_unfold. destruct (move_group dir g1 s) as [[[]|e1] s0]; [|done].
    apply IH.
Qed.
End move_phase_failures.

(** ** The fraction of the bar *)

Section float_facts.
Import SpecFloat.

(** [n / n] is the float [1.0], whatever the positive integer [n] is. *)
Lemma true_div_diag (n : Z) :
  (0 < n)%Z → pyfloat.true_div n n = S754_finite false 4503599627370496 (-52).
Proof.
  intros Hn. destruct n as [|p|p]; try done. unfold pyfloat.true_div, SFdiv_core_binary.
  replace (Zdigits2 (Z.pos p) + 0 - (Zdigits2 (Z.pos p) + 0))%Z with 0%Z by lia.
  change (IntDef.Z.min (fexp 53 1024 0) (IntDef.Z.sub 0 0)) with (-53)%Z.
  change (IntDef.Z.sub (IntDef.Z.sub 0 0) (-53)) with 53%Z. cbv iota.
  rewrite Z.shiftl_mul_pow2 by done.
  assert (IntDef.Z.div_eucl (Z.pos p * 2 ^ 53) (Z.pos p) = ((2 ^ 53)%Z, 0%Z)) as ->.
  { pose proof (Z_div_mod (Z.pos p * 2 ^ 53) (Z.pos p) eq_refl) as Hdiv.
    change Z.div_eucl with IntDef.Z.div_eucl in Hdiv.
    destruct (IntDef.Z.div_eucl _ _) as [q r]. destruct Hdiv as [Heq Hr].
    assert (q = (2 ^ 53)%Z) as ->.
    { rewrite (Z.div_unique _ _ q r (or_introl Hr) Heq).
      by rewrite Z.mul_comm, Z.div_mul. }
    f_equal. lia. }
  assert (new_location (Z.pos p) 0 = loc_Exact) as ->.
  { unfold new_location. by destruct (IntDef.Z.even _). }
  vm_compute. reflexivity.
Qed.
End float_facts.

(** ** The fingerprint phase and the progress line *)

Section pipeline_facts.
Context {Fingerprint : Type} (str : Fingerprint → string).
Context (phash_file : Path → outcome Fingerprint).
Context (time_at : Z → Qc).
Context (os_walk : string → list (string * list string * list string)).
Implicit Types (images : list Path) (i n : Z).
Implicit Types (results hash_dict : list (Path * option Fingerprint)).

Lemma safe_compute_hash_fst p : (safe_compute_hash phash_file p).1 = p.
Proof. unfold safe_compute_hash. by destruct (phash_file p). Qed.

Lemma hash_loop_lines start_time n results i hash_dict :
  (hash_loop time_at start_time n results i hash_dict).2 =
  (λ k, print_progress_bar k n 40
          (Some ((time_at k - start_time) / Qc_of_Z k * Qc_of_Z (n - k))%Qc))
    <$> seqZ i (Z.of_nat (length results)).
Proof.
  revert i hash_dict. induction results as [|[p ph] results IH]; intros i d.
  { done. }
  cbn [hash_loop]. specialize (IH (i + 1)%Z (PyDict.set d p ph)).
  destruct (hash_loop _ _ _ _ _ _) as [d' lines]. cbn [snd] in *.
  rewrite seqZ_cons by (cbn [length]; lia). rewrite fmap_cons, IH.
  replace (Z.succ i) with (i + 1)%Z by lia.
  replace (Z.pred (Z.of_nat (length ((p, ph) :: results))))
    with (Z.of_nat (length results)) by (cbn [length]; lia).
  done.
Qed.

Lemma hash_loop_dict start_time n results i hash_dict :
  (hash_loop time_at start_time n results i hash_dict).1 =
  foldl (λ d r, PyDict.set d r.1 r.2) hash_dict results.
Proof.
  revert i hash_dict. induction results as [|[p ph] results IH]; intros i d.
  { done. }
  cbn [hash_loop]. specialize (IH (i + 1)%Z (PyDict.set d p ph)).
  by destruct (hash_loop _ _ _ _ _ _) as [d' lines].
Qed.

Lemma fingerprint_phase_lines images :
  (fingerprint_phase phash_file time_at images).2 =
  (λ k, print_progress_bar k (Z.of_nat (length images)) 40
          (Some (eta_after time_at (Z.of_nat (length images)) k)))
    <$> seqZ 1 (Z.of_nat (length images)).
Proof.
  unfold fingerprint_phase. rewrite hash_loop_lines.
  unfold executor_map. by rewrite length_fmap.
Qed.

Lemma eta_after_nonneg n i :
  (1 ≤ i ≤ n)%Z → (time_at 0%Z ≤ time_at i)%Qc → (0 ≤ eta_after time_at n i)%Qc.
Proof.
  intros Hi Ht. unfold eta_after.
  assert (0 < Qc_of_Z i)%Qc as Hpos.
  { rewrite <-Z2Qc_inj_0. apply (proj1 (Z2Qc_inj_lt _ _)). lia. }
  assert (0 ≤ Qc_of_Z (n - i))%Qc as Hleft.
  { rewrite <-Z2Qc_inj_0. apply (proj1 (Z2Qc_inj_le _ _)). lia. }
  assert (0 ≤ time_at i - time_at 0%Z)%Qc as Hel.
  { by apply Qcle_minus_iff in Ht. }
  assert (0 ≤ (time_at i - time_at 0%Z) / Qc_of_Z i)%Qc as Havg.
  { apply (Qcmult_lt_0_le_reg_r _ _ (Qc_of_Z i)); [done|].
    rewrite Qcmult_0_l, Qcmult_comm, Qcmult_div_r; [done|].
    intros Heq. rewrite Heq in Hpos. by apply Qclt_not_eq in Hpos. }
  rewrite <-(Qcmult_0_l (Qc_of_Z (n - i))). by apply Qcmult_le_compat_r.
Qed.
Lemma eta_after_last n : eta_after time_at n n = 0%Qc.
Proof. unfold eta_after. by rewrite Z.sub_diag, Z2Qc_inj_0, Qcmult_0_r. Qed.

Lemma eta_after_neg n i :
  (1 ≤ i < n)%Z → (time_at i < time_at 0%Z)%Qc → (eta_after time_at n i < 0)%Qc.
Proof.
  intros Hi Ht. unfold eta_after.
  assert (0 < Qc_of_Z i)%Qc as Hpos.
  { rewrite <-Z2Qc_inj_0. apply (proj1 (Z2Qc_inj_lt _ _)). lia. }
  assert (0 < Qc_of_Z (n - i))%Qc as Hleft.
  { rewrite <-Z2Qc_inj_0. apply (proj1 (Z2Qc_inj_lt _ _)). lia. }
  assert (time_at i - time_at 0%Z < 0)%Qc as Hel.
  { apply Qclt_minus_iff. apply Qclt_minus_iff in Ht.
    replace (0 + - (time_at i - time_at 0%Z))%Qc
      with (time_at 0%Z + - time_at i)%Qc by ring. done. }
  assert (0 < / Qc_of_Z i)%Qc as Hinv.
  { destruct (Qclt_le_dec 0 (/ Qc_of_Z i)) as [|Hle]; [done|]. exfalso.
    apply (Qcmult_le_compat_r _ _ (Qc_of_Z i)) in Hle; [|by apply Qclt_le_weak].
    rewrite Qcmult_0_l, Qcmult_inv_l in Hle; [done|].
    intros Heq. rewrite Heq in Hpos. by apply Qclt_not_eq in Hpos. }
  assert ((time_at i - time_at 0%Z) / Qc_of_Z i < 0)%Qc as Havg.
  { unfold Qcdiv. rewrite <-(Qcmult_0_l (/ Qc_of_Z i)). by apply Qcmult_lt_compat_r. }
  rewrite <-(Qcmult_0_l (Qc_of_Z (n - i))). by apply Qcmult_lt_compat_r.
Qed.
End pipeline_facts.

Section pipeline_claims.
Context {Fingerprint : Type} (str : Fingerprint → string).
Context (phash_file : Path → outcome Fingerprint).
Context (time_at : Z → Qc).
Context (os_walk : string → list (string * list string * list string)).
Implicit Types (images : list Path) (i n : Z) (s : state).

(** C5.  The fingerprint phase yields one result per input path, in the
    order of the input: as many results as paths, the [i]-th result being
    that of the [i]-th path; a path whose image cannot be opened or hashed
    gets the result [(path, None)], no exception leaves
    [safe_compute_hash]; and the loop stores every result and prints one
    progress line per result. *)
Theorem fingerprint_phase_results images :
  length (executor_map (safe_compute_hash phash_file) images) = length images ∧
  (executor_map (safe_compute_hash phash_file) images).*1 = images ∧
  (∀ k p, images !! k = Some p →
     executor_map (safe_compute_hash phash_file) images !! k =
     Some (p, match phash_file p with Return h => Some h | Raise _ => None end)) ∧
  (∀ p e, phash_file p = Raise e → safe_compute_hash phash_file p = (p, None)) ∧
  (fingerprint_phase phash_file time_at images).1 =
    foldl (λ d r, PyDict.set d r.1 r.2) []
      (executor_map (safe_compute_hash phash_file) images) ∧
  length (fingerprint_phase phash_file time_at images).2 = length images.
Proof.
  unfold executor_map. split_and!.
  - by rewrite length_fmap.
  - rewrite <-list_fmap_compose. rewrite <-(list_fmap_id images) at 2.
    apply list_fmap_ext. intros _ p _. apply safe_compute_hash_fst.
  - intros k p Hk. rewrite list_lookup_fmap, Hk. simpl. f_equal.
    unfold safe_compute_hash. by destruct (phash_file p).
  - intros p e He. unfold safe_compute_hash. by rewrite He.
  - apply hash_loop_dict.
  - rewrite fingerprint_phase_lines, length_fmap, length_seqZ. lia.
Qed.

(** C7, amended.  The line printed after the [i]-th result (the line of
    index [i - 1]) shows [i] of [N] and the ETA [(elapsed / i) * (N - i)],
    the time elapsed being that since the start of the phase.  There is
    one line for each [i] from 1 to [N], so no line, and no ETA, is shown
    for a count of 0.  The ETA of the last line is 0.  The ETA is not
    negative when the clock reading is not earlier than the reading at the
    start; it is negative when the reading is earlier and results are
    still to come. *)
Theorem progress_eta images :
  length (fingerprint_phase phash_file time_at images).2 = length images ∧
  ∀ k line, (fingerprint_phase phash_file time_at images).2 !! k = Some line →
    shown_current line = Z.of_nat (S k) ∧
    shown_total line = Z.of_nat (length images) ∧
    shown_eta line =
      Some (eta_after time_at (Z.of_nat (length images)) (Z.of_nat (S k))) ∧
    (S k = length images →
     eta_after time_at (Z.of_nat (length images)) (Z.of_nat (S k)) = 0%Qc) ∧
    ((time_at 0 ≤ time_at (Z.of_nat (S k)))%Qc →
     (0 ≤ eta_after time_at (Z.of_nat (length images)) (Z.of_nat (S k)))%Qc) ∧
    (S k < length images → (time_at (Z.of_nat (S k)) < time_at 0)%Qc →
     (eta_after time_at (Z.of_nat (length images)) (Z.of_nat (S k)) < 0)%Qc).
Proof.
  rewrite fingerprint_phase_lines. split.
  { rewrite length_fmap, length_seqZ. lia. }
  intros k line Hk. rewrite list_lookup_fmap in Hk.
  destruct (seqZ _ _ !! k) as [i|] eqn:Hi; [|done].
  apply lookup_seqZ in Hi as [-> Hlt]. injection Hk as <-.
  replace (1 + Z.of_nat k)%Z with (Z.of_nat (S k)) by lia.
  split_and!; [done..| | |].
  - intros ->. apply eta_after_last.
  - intros Hclock. apply eta_after_nonneg; [lia | done].
  - intros Hmore Hclock. apply eta_after_neg; [lia | done].
Qed.

(** C8, amended.  When there is at least one image, the last progress line
    printed by the fingerprint phase shows as many done as there are
    images: a bar of forty [#] and 100 percent. *)
Theorem progress_final_line images :
  images ≠ [] →
  ∃ line,
    last (fingerprint_phase phash_file time_at images).2 = Some line ∧
    shown_current line = Z.of_nat (length images) ∧
    shown_total line = Z.of_nat (length images) ∧
    bar line = PyStr.repeat "#" 40 ∧
    shown_percent line = Qc_of_Z 100.
Proof.
  intros Hne. rewrite fingerprint_phase_lines, fmap_last.
  destruct images as [|p images]; [done|]. cbn [length].
  rewrite seqZ_S, last_snoc. eexists. split; [done|].
  replace (1 + Z.of_nat (length images))%Z with (Z.of_nat (S (length images))) by lia.
  set (n := Z.of_nat (S (length images))).
  unfold print_progress_bar. rewrite decide_True by lia.
  cbn [shown_current shown_total bar shown_percent].
  rewrite true_div_diag by lia. split_and!; [done | done | reflexivity |].
  apply Qc_is_canon. reflexivity.
Qed.

(** C9.  The script accepts the command lines [prog folder] and
    [prog folder -m destination]: it runs [compare_images] on them, whose
    first output is the announcement of the scan, and ends with status 0
    when [compare_images] returns normally.  On every other command line it
    prints the usage text, ends with status 1, and does nothing else. *)
Theorem main_command_line argv s :
  (∀ prog folder, argv = [prog; folder] →
     ∀ s' printed, compare_images str phash_file time_at os_walk folder None s
                   = (Return (), s', printed) →
     main str phash_file time_at os_walk argv s = (0%Z, s', printed)) ∧
  (∀ prog folder dest, argv = [prog; folder; "-m"; dest] →
     ∀ s' printed, compare_images str phash_file time_at os_walk folder (Some dest) s
                   = (Return (), s', printed) →
     main str phash_file time_at os_walk argv s = (0%Z, s', printed)) ∧
  (accepted argv →
     ∃ n rest, (main str phash_file time_at os_walk argv s).2 = Computing n :: rest) ∧
  (¬ accepted argv →
     main str phash_file time_at os_walk argv s = (1%Z, s, [Usage usage_text])).
Proof.
  assert (∀ folder mv, ∃ n rest,
            (compare_images str phash_file time_at os_walk folder mv s).2
            = Computing n :: rest) as Hstart.
  { intros folder mv. unfold compare_images.
    destruct (fingerprint_phase _ _ _) as [hash_dict lines].
    destruct (move_phase _ _ _) as [[[]|e] s']; cbn [snd]; eauto. }
  split_and!.
  - intros prog folder -> s' printed Hrun. unfold main. cbn [length].
    rewrite decide_False.
    + rewrite decide_False by lia. cbn. by rewrite Hrun.
    + intros [Hn|[? _]]; [|lia]. apply Hn. left.
  - intros prog folder dest -> s' printed Hrun. unfold main. cbn [length].
    rewrite decide_False.
    + rewrite decide_True by lia. cbn. by rewrite Hrun.
    + intros [Hn|[_ Hm]]; [|done]. apply Hn. right. left.
  - intros [(prog & folder & ->)|(prog & folder & dest & ->)]; unfold main;
      cbn [length].
    + rewrite decide_False.
      * rewrite decide_False by lia. cbn [lookup list_lookup default].
        destruct (Hstart folder None) as (n & rest & Hrun).
        destruct (compare_images _ _ _ _ _ _ _) as [[[[]|e] s'] printed];
          cbn [snd] in *; eauto.
      * intros [Hn|[? _]]; [|lia]. apply Hn. left.
    + rewrite decide_False.
      * rewrite decide_True by lia. cbn [lookup list_lookup default].
        destruct (Hstart folder (Some dest)) as (n & rest & Hrun).
        destruct (compare_images _ _ _ _ _ _ _) as [[[[]|e] s'] printed];
          cbn [snd] in *; eauto.
      * intros [Hn|[_ Hm]]; [|done]. apply Hn. right. left.
  - intros Hna. unfold main. rewrite decide_True; [done|].
    destruct argv as [|a0 [|a1 [|a2 [|a3 [|a4 l]]]]]; cbn [length].
    + left. intros [?|[?|[]%elem_of_nil]%elem_of_cons]%elem_of_cons; lia.
    + left. intros [?|[?|[]%elem_of_nil]%elem_of_cons]%elem_of_cons; lia.
    + destruct Hna. left. eauto.
    + left. intros [?|[?|[]%elem_of_nil]%elem_of_cons]%elem_of_cons; lia.
    + destruct (decide (a2 = "-m")) as [->|Hne].
      * destruct Hna. right. eauto.
      * right. split; [done|]. cbn. congruence.
    + left. intros [?|[?|[]%elem_of_nil]%elem_of_cons]%elem_of_cons; lia.
Qed.
End pipeline_claims.

(** ** Failures in the move phase *)

Section failure_claims.
Context {Fingerprint : Type} (str : Fingerprint → string).
Context (phash_file : Path → outcome Fingerprint).
Context (time_at : Z → Qc).
Context (os_walk : string → list (string * list string * list string)).
Implicit Types (s : state) (p q o dir : string).

(** C4, amended.  A failure in the move phase is not confined to its file:
    the exception ends the phase on the spot.  A failed size lookup (of a
    path for which [os.path.exists] is false) ends its group before any
    of its files is moved; a move that the operating system refuses
    raises and records no move; a failed move, whatever its exception,
    ends the group at that file; an exception in a group keeps every
    later group from being processed, the state being the one reached at
    the failure; and [compare_images] ends with that exception, having
    printed no report, so that the script ends with status 1. *)
Theorem move_failure_aborts :
  (∀ s dir group,
     (∃ p, p ∈ group ∧ path_exists (files s) p = false) →
     ∃ q, q ∈ group ∧ path_exists (files s) q = false ∧
          move_group dir group s = (Raise (FileNotFoundError q), s)) ∧
  (∀ s dir img e,
     files s !! img = Some e →
     kind e = Regular Refused ∨ kind e = Regular Pinned →
     ∃ x s1, move_duplicate img dir s = (Raise x, s1) ∧
             relocations s1 = relocations s) ∧
  (∀ s o dir pre img rest x s1 s2,
     move_others o dir pre s = (Return (), s1) →
     img ≠ o → move_duplicate img dir s1 = (Raise x, s2) →
     move_others o dir (pre ++ img :: rest) s = (Raise x, s2)) ∧
  (∀ s o dir pre img rest e s1,
     move_others o dir pre s = (Return (), s1) →
     img ≠ o → files s1 !! img = Some e → kind e = Regular Refused →
     ready (files s1) dir →
     move_others o dir (pre ++ img :: rest) s = (Raise (PermissionError img), s1)) ∧
  (∀ dir gs1 g gs2 s s1 e s2,
     move_groups dir gs1 s = (Return (), s1) →
     move_group dir g s1 = (Raise e, s2) →
     move_groups dir (gs1 ++ g :: gs2) s = (Raise e, s2)) ∧
  (∀ folder dest s e s',
     move_phase (Some dest)
       (group_exact_duplicates str
          (fingerprint_phase phash_file time_at (find_images os_walk folder)).1) s
       = (Raise e, s') →
     compare_images str phash_file time_at os_walk folder (Some dest) s =
       (Raise e, s',
        Computing (Z.of_nat (length (find_images os_walk folder))) ::
        (Progress <$> (fingerprint_phase phash_file time_at
                         (find_images os_walk folder)).2) ++ [Newline]) ∧
     ∀ prog, (main str phash_file time_at os_walk [prog; folder; "-m"; dest] s).1
             = (1%Z, s')).
Proof.
  split_and!.
  - intros s dir group. apply move_group_missing.
  - intros s dir img e. apply move_duplicate_refused.
  - intros s o dir pre img rest x s1 s2. apply move_others_abort.
  - intros s o dir pre img rest e s1 Hpre Hne He Hk Hr.
    apply (move_others_abort _ _ _ _ _ _ s1); [done | done |].
    by apply (move_duplicate_blocked _ _ _ e).
  - intros dir gs1 g gs2 s s1 e s2. apply move_groups_abort.
  - intros folder dest s e s' Hmove.
    assert (compare_images str phash_file time_at os_walk folder (Some dest) s =
       (Raise e, s',
        Computing (Z.of_nat (length (find_images os_walk folder))) ::
        (Progress <$> (fingerprint_phase phash_file time_at
                         (find_images os_walk folder)).2) ++ [Newline])) as Hrun.
    { unfold compare_images.
      destruct (fingerprint_phase _ _ _) as [hash_dict lines]. cbn [fst snd] in *.
      by rewrite Hmove. }
    split; [done|]. intros prog. unfold main. cbn [length].
    rewrite decide_False.
    + rewrite decide_True by lia. cbn. by rewrite Hrun.
    + intros [Hn|[_ Hm]]; [|done]. apply Hn. right. left.
Qed.
End failure_claims.

(** * The sample folder, run *)



Lemma group_exact_duplicates_classes_witness :
  NoDup demo_hashes.*1 ∧
  (∀ g, g ∈ group_exact_duplicates demo_str demo_hashes → 2 ≤ length g) ∧
  NoDup (concat (group_exact_duplicates demo_str demo_hashes)) ∧
  (∀ p g, PyDict.get demo_hashes p = Some None →
     g ∈ group_exact_duplicates demo_str demo_hashes → p ∉ g) ∧
  (∀ p q, p ≠ q →
     (∃ g, g ∈ group_exact_duplicates demo_str demo_hashes ∧ p ∈ g ∧ q ∈ g) ↔
     (∃ h, PyDict.get demo_hashes p = Some (Some h) ∧
           PyDict.get demo_hashes q = Some (Some h))).
Proof.
  assert (NoDup demo_hashes.*1) as Hnd by compute_done.
  split; [exact Hnd|].
  exact (group_exact_duplicates_classes demo_str (λ h1 h2 H, H) demo_hashes Hnd).
Defined.

Lemma group_exact_duplicates_permutation_witness :
  demo_hashes ≡ₚ demo_hashes_shuffled ∧
  groups_as_sets (group_exact_duplicates demo_str demo_hashes) =
  groups_as_sets (group_exact_duplicates demo_str demo_hashes_shuffled).
Proof.
  assert (demo_hashes ≡ₚ demo_hashes_shuffled) as Hp by compute_done.
  split; [exact Hp|].
  exact (group_exact_duplicates_permutation demo_str _ _ Hp).
Defined.



Lemma progress_eta_witness :
  length (fingerprint_phase demo_phash demo_time ["in/a.jpg"; "in/b.jpg"; "in/e.GIF"]).2
    = 3 ∧
  ∀ k line,
    (fingerprint_phase demo_phash demo_time ["in/a.jpg"; "in/b.jpg"; "in/e.GIF"]).2 !! k
      = Some line →
    shown_current line = Z.of_nat (S k) ∧
    shown_total line = 3%Z ∧
    shown_eta line = Some (eta_after demo_time 3 (Z.of_nat (S k))) ∧
    (0 ≤ eta_after demo_time 3 (Z.of_nat (S k)))%Qc.
Proof.
  destruct (progress_eta demo_phash demo_time ["in/a.jpg"; "in/b.jpg"; "in/e.GIF"])
    as [Hlen Hlines].
  split; [exact Hlen|]. intros k line Hk.
  destruct (Hlines k line Hk) as (Hcur & Htot & Heta & _ & Hnonneg & _).
  split_and!; [exact Hcur | exact Htot | exact Heta |].
  apply Hnonneg. unfold demo_time. apply (proj1 (Z2Qc_inj_le _ _)). lia.
Defined.

Lemma progress_final_line_witness :
  ["in/a.jpg"; "in/b.jpg"] ≠ [] ∧
  ∃ line,
    last (fingerprint_phase demo_phash demo_time ["in/a.jpg"; "in/b.jpg"]).2 = Some line ∧
    shown_current line = 2%Z ∧
    shown_total line = 2%Z ∧
    bar line = PyStr.repeat "#" 40 ∧
    shown_percent line = Qc_of_Z 100.
Proof.
  assert (["in/a.jpg"; "in/b.jpg"] ≠ @nil string) as Hne by discriminate.
  split; [exact Hne|].
  exact (progress_final_line demo_phash demo_time ["in/a.jpg"; "in/b.jpg"] Hne).
Defined.




(** C7 as stated fails when the clock is set back: with readings 10 at the
    start and 8, 6, 4 after the three results, the lines show the ETAs -4,
    -2 and 0. *)
Lemma progress_eta_negative :
  (shown_eta <$> (fingerprint_phase demo_phash demo_time_back
                    ["in/a.jpg"; "in/b.jpg"; "in/e.GIF"]).2)
    = [Some (eta_after demo_time_back 3 1); Some (eta_after demo_time_back 3 2);
       Some (eta_after demo_time_back 3 3)] ∧
  this (eta_after demo_time_back 3 1) = (-4 # 1)%Q ∧
  this (eta_after demo_time_back 3 2) = (-2 # 1)%Q ∧
  (eta_after demo_time_back 3 1 < 0)%Qc.
Proof. split_and!; try reflexivity. Qed.

(** C8 as stated fails on the empty list: the loop body never runs, so no
    progress line is printed, with or without a full bar. *)
Lemma progress_not_rendered_without_images :
  (fingerprint_phase demo_phash demo_time []).2 = [] ∧
  ¬ ∃ line, line ∈ (fingerprint_phase demo_phash demo_time []).2 ∧
            shown_current line = shown_total line.
Proof.
  split; [reflexivity|]. intros (line & Hin & _). by apply elem_of_nil in Hin.
Qed.

(** C4 as stated fails: with the move of [in/b.jpg] refused, its
    [PermissionError] ends the move phase, the quarantine directory being
    made and nothing moved; [in/z.jpg] of the same group and [in/sub/d.png]
    of the next group stay where they are, although moving them works, as
    the second and third facts show.  With [in/b.jpg] gone, the size lookup
    ends the phase before anything is done.  The script ends with
    status 1. *)
Lemma move_phase_failure_not_isolated :
  move_phase (Some "out") demo_groups (State blocked_files [])
    = (Raise (PermissionError "in/b.jpg"), State (quarantine_made blocked_files) []) ∧
  move_duplicate "in/z.jpg" "out/duplicates" (State (quarantine_made blocked_files) [])
    = (Return (),
       {| files := <["out/duplicates/z.jpg" := Entry 100 (Regular Movable)]>
                     (delete "in/z.jpg" (quarantine_made blocked_files));
          relocations := [("in/z.jpg", "out/duplicates/z.jpg")] |}) ∧
  move_group "out/duplicates" ["in/c.jpg"; "in/sub/d.png"]
    (State (quarantine_made blocked_files) [])
    = (Return (),
       {| files := <["out/duplicates/d.png" := Entry 300 (Regular Movable)]>
                     (delete "in/sub/d.png" (quarantine_made blocked_files));
          relocations := [("in/sub/d.png", "out/duplicates/d.png")] |}) ∧
  move_phase (Some "out") demo_groups (State vanished_files [])
    = (Raise (FileNotFoundError "in/b.jpg"), State vanished_files []) ∧
  (main demo_str demo_phash demo_time demo_walk ["prog"; "in"; "-m"; "out"]
     (State blocked_files [])).1 = (1%Z, State (quarantine_made blocked_files) []).
Proof. split_and!; vm_compute; reflexivity. Qed.

(** The folder of the specification's scenario, moved: one file of each
    pair goes to the quarantine directory. *)
Example main_moves_duplicates :
  (main demo_str demo_phash demo_time demo_walk ["prog"; "in"; "-m"; "out"]
     (State demo_files [])).1.1 = 0%Z ∧
  relocations (main demo_str demo_phash demo_time demo_walk
                 ["prog"; "in"; "-m"; "out"] (State demo_files [])).1.2 =
    [("in/b.jpg", "out/duplicates/b.jpg"); ("in/z.jpg", "out/duplicates/z.jpg");
     ("in/sub/d.png", "out/duplicates/d.png")].
Proof. split; vm_compute; reflexivity. Qed.

Example demo_fingerprints :
  (fingerprint_phase demo_phash demo_time (find_images demo_walk "in")).1 = demo_hashes.
Proof. vm_compute. reflexivity. Qed.

Example demo_grouping : group_exact_duplicates demo_str demo_hashes = demo_groups.
Proof. vm_compute. reflexivity. Qed.

Example main_rejects_missing_folder :
  main demo_str demo_phash demo_time demo_walk ["prog"] (State demo_files [])
  = (1%Z, State demo_files [], [Usage usage_text]).
Proof. reflexivity. Qed.

(** A name held by a directory is passed over as one held by a file is. *)
Example choose_dest_skips_taken_names :
  choose_dest crowded_files "in/b.jpg" "out/duplicates" = Some "out/duplicates/b_2.jpg".
Proof. vm_compute. reflexivity. Qed.

(** The move into that directory: the file takes the second numbered
    name, and nothing that was there is touched. *)
Example move_duplicate_numbers_the_name :
  move_duplicate "in/b.jpg" "out/duplicates" (State crowded_files [])
  = (Return (),
     {| files := <["out/duplicates/b_2.jpg" := Entry 400 (Regular Movable)]>
                   (delete "in/b.jpg" crowded_files);
        relocations := [("in/b.jpg", "out/duplicates/b_2.jpg")] |}).
Proof. vm_compute. reflexivity. Qed.

(** The bar is computed in floats: 29 of 100 at width 100 gives 28 marks,
    since [29 / 100 * 100] is just below 29. *)
Example bar_of_29_in_100 :
  bar (print_progress_bar 29 100 100 None) =
  PyStr.repeat "#" 28 +:+ PyStr.repeat "-" 72.
Proof. vm_compute. reflexivity. Qed.

(** * Further properties of the program *)

(** ** The dictionary of fingerprints *)

Section hash_dict_facts.
Context {V : Type}.
Implicit Types (d rs : list (Path * V)) (k : Path).

Lemma set_fresh d k (v : V) : k ∉ d.*1 → PyDict.set d k v = d ++ [(k, v)].
Proof.
  induction d as [|[k' v'] d IH]; csimpl; [done|].
  intros [Hne Hd]%not_elem_of_cons. rewrite decide_False by done. by rewrite IH.
Qed.

Lemma foldl_set_NoDup d rs :
  NoDup d.*1 → NoDup (foldl (λ d r, PyDict.set d r.1 r.2) d rs).*1.
Proof.
  revert d. induction rs as [|r rs IH]; intros d Hd; [done|].
  simpl. by apply IH, set_NoDup.
Qed.

Lemma foldl_set_get (g : Path → V) d rs k :
  (∀ r, r ∈ rs → r.2 = g r.1) →
  PyDict.get (foldl (λ d r, PyDict.set d r.1 r.2) d rs) k =
  if decide (k ∈ rs.*1) then Some (g k) else PyDict.get d k.
Proof.
  revert d. induction rs as [|[p v] rs IH]; intros d Hg.
  { reflexivity. }
  csimpl. rewrite IH by (intros r Hr; apply Hg; by right).
  destruct (decide (k ∈ rs.*1)) as [Hin|Hin].
  - by rewrite decide_True by (by right).
  - rewrite get_set. destruct (decide (p = k)) as [->|Hne].
    + rewrite decide_True by left. f_equal. apply (Hg (k, v)). left.
    + rewrite decide_False; [done|]. by intros [->|?]%elem_of_cons.
Qed.

Lemma foldl_set_fresh d rs :
  NoDup (d.*1 ++ rs.*1) → foldl (λ d r, PyDict.set d r.1 r.2) d rs = d ++ rs.
Proof.
  revert d. induction rs as [|[p v] rs IH]; intros d Hnd; csimpl in *.
  { by rewrite app_nil_r. }
  apply NoDup_app in Hnd as (Hd & Hdisj & [Hp Hrs]%NoDup_cons).
  rewrite set_fresh by (intros Hin; by apply (Hdisj p Hin); left).
  rewrite IH, <-app_assoc; [done|]. rewrite fmap_app. csimpl.
  apply NoDup_app. split_and!; [| |done].
  - apply NoDup_app. split_and!; [done | | apply NoDup_singleton].
    intros x Hx Hxp%list_elem_of_singleton. subst x. by apply (Hdisj p Hx); left.
  - intros x [Hx|Hxp%list_elem_of_singleton]%elem_of_app; [|by subst x].
    intros Hin. by apply (Hdisj x Hx); right.
Qed.
End hash_dict_facts.

Section hash_dict_claims.
Context {Fingerprint : Type} (phash_file : Path → outcome Fingerprint).
Context (time_at : Z → Qc).
Implicit Types (images : list Path) (p : Path).

(** X1.  The dictionary filled by the hashing loop has pairwise distinct
    keys, which are exactly the input paths; looking a path of the input up
    gives the result of [safe_compute_hash] for it, however often the path
    occurs in the input; and for an input without repetition the items of
    the dictionary are the results, in the order of the input. *)
Theorem fingerprint_dict images :
  NoDup (fingerprint_phase phash_file time_at images).1.*1 ∧
  (∀ p, p ∈ (fingerprint_phase phash_file time_at images).1.*1 ↔ p ∈ images) ∧
  (∀ p, p ∈ images →
     PyDict.get (fingerprint_phase phash_file time_at images).1 p =
     Some (safe_compute_hash phash_file p).2) ∧
  (∀ p, p ∉ images →
     PyDict.get (fingerprint_phase phash_file time_at images).1 p = None) ∧
  (NoDup images →
     PyDict.items (fingerprint_phase phash_file time_at images).1 =
     executor_map (safe_compute_hash phash_file) images).
Proof.
  unfold fingerprint_phase. rewrite hash_loop_dict. unfold executor_map.
  set (results := safe_compute_hash phash_file <$> images).
  assert (results.*1 = images) as Hkeys.
  { unfold results. rewrite <-list_fmap_compose. rewrite <-(list_fmap_id images) at 2.
    apply list_fmap_ext. intros _ p _. apply safe_compute_hash_fst. }
  assert (∀ p, PyDict.get (foldl (λ d r, PyDict.set d r.1 r.2) [] results) p =
               if decide (p ∈ images) then Some (safe_compute_hash phash_file p).2
               else None) as Hget.
  { intros p. rewrite (foldl_set_get (λ p, (safe_compute_hash phash_file p).2)).
    - by rewrite Hkeys.
    - intros r [q [-> _]]%list_elem_of_fmap. by rewrite safe_compute_hash_fst. }
  split_and!.
  - apply foldl_set_NoDup. constructor.
  - intros p. destruct (decide (p ∈ images)) as [Hin|Hin].
    + split; [done|]. intros _. apply dec_stable. intros Hn%get_None.
      rewrite Hget, decide_True in Hn by done. done.
    + split; [|done]. intros Hk. exfalso. revert Hk. apply get_None.
      by rewrite Hget, decide_False.
  - intros p Hp. by rewrite Hget, decide_True.
  - intros p Hp. by rewrite Hget, decide_False.
  - intros Hnd. unfold PyDict.items. rewrite foldl_set_fresh; [done|].
    by rewrite Hkeys.
Qed.
End hash_dict_claims.

(** ** More on grouping *)

Section grouping_order.
Context {Fingerprint : Type} (str : Fingerprint → string).
Implicit Types (d : list (Path * option Fingerprint)) (g : list Path) (k : string).
Implicit Types (m : list (string * list Path)).

Lemma NoDup_two (l : list Path) :
  NoDup l → 1 < length l → ∃ x y, x ∈ l ∧ y ∈ l ∧ x ≠ y.
Proof.
  destruct l as [|x [|y l]]; simpl; [lia | lia |]. intros [Hx _]%NoDup_cons _.
  exists x, y. split_and!; [left | right; left |].
  intros ->. apply Hx. left.
Qed.

Lemma members_sublist k d : members str k d `sublist_of` d.*1.
Proof.
  unfold members. induction d as [|[p [h|]] d IH]; csimpl.
  - constructor.
  - destruct (decide (str h = k)); [by constructor | by apply sublist_cons].
  - by apply sublist_cons.
Qed.

Lemma heads_set_old m k g (v : list Path) :
  PyDict.get m k = Some g → head v = head g →
  omap head (PyDict.set m k v).*2 = omap head m.*2.
Proof.
  induction m as [|[k' g'] m IH]; csimpl; [done|].
  destruct (decide (k' = k)) as [->|Hne]; csimpl.
  - intros [= ->] ->. done.
  - intros Hget Hhead. by rewrite IH.
Qed.

Lemma heads_filter (P : list Path → Prop) `{!∀ g, Decision (P g)} (gs : list (list Path)) :
  omap head (filter P gs) `sublist_of` omap head gs.
Proof.
  induction gs as [|g gs IH]; [constructor|]. rewrite filter_cons.
  destruct (decide (P g)); csimpl; destruct (head g); try done.
  - by constructor.
  - by apply sublist_cons.
Qed.

(** The first paths of the entries of the dictionary of groups follow the
    order of the input. *)
Lemma mapping_heads d :
  omap head (foldl (group_step str) [] d).*2 `sublist_of` d.*1.
Proof.
  induction d as [|[p ph] d IH] using rev_ind; [constructor|].
  rewrite foldl_snoc, fmap_app. destruct (mapping_spec str d) as [Hnd Hget].
  set (m := foldl (group_step str) [] d) in *. destruct ph as [h|]; simpl.
  - specialize (Hget (str h)). destruct (members str (str h) d) as [|q g] eqn:Hm.
    + assert (str h ∉ m.*1) as Hfresh by (by apply get_None).
      rewrite Hget. simpl. rewrite set_fresh by done.
      rewrite fmap_app, omap_app. by apply sublist_app.
    + rewrite Hget. simpl. rewrite (heads_set_old m (str h) (q :: g)) by done.
      by apply sublist_inserts_r.
  - by apply sublist_inserts_r.
Qed.

(** X2.  On a dictionary, [group_exact_duplicates] returns no group exactly
    when no two different paths have fingerprints with the same string
    form: this is when the report says that there is no duplicate. *)
Theorem no_group_iff_no_shared_fingerprint d :
  NoDup d.*1 →
  group_exact_duplicates str d = [] ↔
  ∀ p q hp hq,
    PyDict.get d p = Some (Some hp) → PyDict.get d q = Some (Some hq) →
    str hp = str hq → p = q.
Proof.
  intros Hd. split.
  - intros Hnil p q hp hq Hp%get_Some Hq%get_Some Hk; try done.
    destruct (decide (p = q)) as [|Hne]; [done|]. exfalso.
    assert (members str (str hp) d ∈ group_exact_duplicates str d) as Hin.
    { apply elem_of_group_exact_duplicates. exists (str hp). split; [done|].
      apply (two_elems_length _ p q); [| |done]; apply elem_of_members; eauto. }
    rewrite Hnil in Hin. by apply elem_of_nil in Hin.
  - intros Hone. destruct (group_exact_duplicates str d) as [|g gs] eqn:Hgs; [done|].
    exfalso. assert (g ∈ group_exact_duplicates str d) as Hin by (rewrite Hgs; left).
    apply elem_of_group_exact_duplicates in Hin as (k & -> & Hlen).
    destruct (NoDup_two (members str k d)) as (x & y & Hx & Hy & Hxy);
      [by apply members_NoDup | done |].
    apply elem_of_members in Hx as (hx & Hx%get_Some & Hkx); [|done].
    apply elem_of_members in Hy as (hy & Hy%get_Some & Hky); [|done].
    apply Hxy, (Hone x y hx hy); congruence.
Qed.

(** X3.  The groups come in first-seen order: the paths of a group are in
    the order of the input, and so are the first paths of the groups, one
    group after the other. *)
Theorem groups_in_first_seen_order d :
  (∀ g, g ∈ group_exact_duplicates str d → g `sublist_of` d.*1) ∧
  length (omap head (group_exact_duplicates str d)) =
    length (group_exact_duplicates str d) ∧
  omap head (group_exact_duplicates str d) `sublist_of` d.*1.
Proof.
  split_and!.
  - intros g (k & -> & _)%elem_of_group_exact_duplicates. apply members_sublist.
  - assert (Forall (λ g, 1 < length g) (group_exact_duplicates str d)) as Hall.
    { apply Forall_forall. by intros g (k & -> & ?)%elem_of_group_exact_duplicates. }
    induction Hall as [|g gs Hg _ IH]; [done|]. csimpl.
    destruct g; simpl in *; [lia|]. by rewrite IH.
  - unfold group_exact_duplicates, PyDict.items, PyDict.values.
    etrans; [apply heads_filter | apply mapping_heads].
Qed.
End grouping_order.

(** ** More on moving *)

Section move_more.
Implicit Types (s : state) (p q o dir dest src : string).

End move_more.

(** ** Any run of the move phase *)

Section any_run.
Implicit Types (s : state) (p q o dir dest src : string).

(** What one call of [move_duplicate] can do to the list of relocations. *)
Lemma move_duplicate_cases src dir s :
  (∃ s' dest, move_duplicate src dir s = (Return (), s') ∧
              relocations s' = relocations s ++ [(src, dest)] ∧
              quarantined dir src dest) ∨
  (∃ e s', move_duplicate src dir s = (Raise e, s') ∧
           relocations s' = relocations s).
Proof.
  pose proof (makedirs_grown dir s) as (Hrel & _ & _).
  destruct (makedirs dir s) as [[[]|x] s0] eqn:Hmk; simpl in Hrel.
  - destruct (find_dest_total src dir s0) as (dest & _ & Hdest).
    rewrite (move_duplicate_unfold src dir s s0 dest) by done.
    apply choose_dest_quarantined in Hdest.
    destruct (move_entry src dest s0) as [[[]|x] s1] eqn:Hmv.
    + apply move_entry_returns in Hmv as [Hlog _]. left.
      exists s1, dest. split_and!; [done | congruence | done].
    + apply move_entry_raises in Hmv. right. exists x, s1. split; [done | congruence].
  - right. exists x, s0. split; [by apply move_duplicate_unmade | done].
Qed.

Lemma move_others_any o dir rest s :
  ∃ news,
    relocations (move_others o dir rest s).2 = relocations s ++ news ∧
    Forall (λ r, quarantined dir r.1 r.2) news ∧
    news.*1 `prefix_of` filter (λ p, p ≠ o) rest ∧
    ((move_others o dir rest s).1 = Return () →
     news.*1 = filter (λ p, p ≠ o) rest).
Proof.
  revert s. induction rest as [|img rest IH]; intros s.
  { exists []. simpl. rewrite app_nil_r. split_and!; [done | constructor | done | done]. }
  simpl. rewrite bind_unfold, filter_cons.
  destruct (decide (img ≠ o)) as [Hne|Heq]; [|apply IH].
  destruct (move_duplicate_cases img dir s)
    as [(s1 & dest & -> & Hrel & Hq)|(e & s1 & -> & Hrel)].
  - destruct (IH s1) as (news & Hrel' & Hall & Hpre & Hret).
    exists ((img, dest) :: news). split_and!.
    + by rewrite Hrel', Hrel, <-app_assoc.
    + by constructor.
    + csimpl. by apply prefix_cons.
    + intros Hr. csimpl. by rewrite Hret.
  - exists []. simpl. rewrite app_nil_r.
    split_and!; [done | constructor | by eexists | done].
Qed.

Lemma max_loop_returns s best l o s' :
  max_loop getsize best (size_at s best) l s = (Return o, s') →
  s' = s ∧ o ∈ best :: l ∧
  (size_at s best ≤ size_at s o)%Z ∧ ∀ p, p ∈ l → (size_at s p ≤ size_at s o)%Z.
Proof.
  revert best. induction l as [|p l IH]; intros best; simpl.
  { intros [= <- <-]. split_and!; [done | left | lia |]. by intros p ?%elem_of_nil. }
  rewrite bind_unfold.
  destruct (getsize_cases s p) as [[_ (e & Hp & ->)]|[_ ->]]; [|done].
  assert (byte_size e = size_at s p) as -> by (unfold size_at; by rewrite Hp).
  case_decide as Hlt; intros (-> & Ho & Hbest & Hl)%IH.
  - split_and!; [done | by right | lia |].
    intros q [->|Hq]%elem_of_cons; [done | by apply Hl].
  - split_and!; [done | | done |].
    + apply elem_of_cons in Ho as [->|Ho]; [left | right; by right].
    + intros q [->|Hq]%elem_of_cons; [lia | by apply Hl].
Qed.

Lemma py_max_returns s l o s' :
  py_max getsize l s = (Return o, s') →
  s' = s ∧ o ∈ l ∧ ∀ p, p ∈ l → (size_at s p ≤ size_at s o)%Z.
Proof.
  destruct l as [|p l]; simpl; [done|]. rewrite bind_unfold.
  destruct (getsize_cases s p) as [[_ (e & Hp & ->)]|[_ ->]]; [|done].
  assert (byte_size e = size_at s p) as -> by (unfold size_at; by rewrite Hp).
  intros (-> & Ho & Hbest & Hl)%max_loop_returns. split_and!; [done..|].
  intros q [->|Hq]%elem_of_cons; [done | by apply Hl].
Qed.

Lemma max_loop_state best best_key l s : (max_loop getsize best best_key l s).2 = s.
Proof.
  revert best best_key. induction l as [|p l IH]; intros best best_key; simpl; [done|].
  rewrite bind_unfold.
  destruct (getsize_cases s p) as [[_ (e & Hp & ->)]|[_ ->]]; [|done].
  case_decide; apply IH.
Qed.

Lemma py_max_state l s : (py_max getsize l s).2 = s.
Proof.
  destruct l as [|p l]; simpl; [done|].
  rewrite bind_unfold.
  destruct (getsize_cases s p) as [[_ (e & Hp & ->)]|[_ ->]]; [|done].
  apply max_loop_state.
Qed.

(** X5.  On any state, with or without a failure, the moves [move_group]
    does are the first so many of the moves it is meant to do: unless
    nothing is moved and an exception is raised, there is a path of the
    group of greatest byte size that is the source of no move, and the
    sources of the moves are, in order, an initial part of the other paths
    of the group, all of them when [move_group] returns normally; every
    destination is a name inside the quarantine directory. *)
Theorem move_group_any_run s dir group :
  ∃ news,
    relocations (move_group dir group s).2 = relocations s ++ news ∧
    Forall (λ r, quarantined dir r.1 r.2) news ∧
    ((news = [] ∧ (move_group dir group s).1 ≠ Return ()) ∨
     ∃ o, o ∈ group ∧
          (∀ p, p ∈ group → (size_at s p ≤ size_at s o)%Z) ∧
          (o ∉ news.*1) ∧
          news.*1 `prefix_of` filter (λ p, p ≠ o) group ∧
          ((move_group dir group s).1 = Return () →
           news.*1 = filter (λ p, p ≠ o) group)).
Proof.
  unfold move_group. rewrite bind_unfold.
  destruct (py_max getsize group s) as [[o|e] s1] eqn:Hmax.
  - apply py_max_returns in Hmax as (-> & Ho & Hmax).
    destruct (move_others_any o dir group s) as (news & Hrel & Hall & Hpre & Hret).
    exists news. split_and!; [done | done |]. right. exists o.
    split_and!; [done | done | | done | done].
    intros Hin. destruct Hpre as [k Hk].
    assert (o ∈ filter (λ p, p ≠ o) group) as [? _]%list_elem_of_filter; [|done].
    rewrite Hk, elem_of_app. by left.
  - pose proof (py_max_state group s) as Hs. rewrite Hmax in Hs. simpl in Hs.
    subst s1. exists []. simpl. rewrite app_nil_r.
    split_and!; [done | constructor | by left].
Qed.
End any_run.

(** ** Whole runs *)

Section whole_runs.
Context {Fingerprint : Type} (str : Fingerprint → string).
Context (phash_file : Path → outcome Fingerprint).
Context (time_at : Z → Qc).
Context (os_walk : string → list (string * list string * list string)).
Implicit Types (images : list Path) (s : state) (p : Path).

(** The keys of the dictionary of fingerprints. *)
Lemma fingerprint_keys images :
  NoDup (fingerprint_phase phash_file time_at images).1.*1 ∧
  ∀ p, p ∈ (fingerprint_phase phash_file time_at images).1.*1 → p ∈ images.
Proof.
  unfold fingerprint_phase. rewrite hash_loop_dict. unfold executor_map. split.
  { apply foldl_set_NoDup. constructor. }
  intros p Hp. apply dec_stable. intros Hn. revert Hp. apply get_None.
  rewrite (foldl_set_get (λ p, (safe_compute_hash phash_file p).2)).
  - rewrite decide_False; [done|]. rewrite <-list_fmap_compose.
    intros (q & Heq & Hq)%list_elem_of_fmap. simpl in Heq.
    rewrite safe_compute_hash_fst in Heq. by subst.
  - intros r [q [-> _]]%list_elem_of_fmap. by rewrite safe_compute_hash_fst.
Qed.

(** The paths of the groups of a run are images that were found. *)
Lemma grouped_paths_found images p :
  p ∈ concat (group_exact_duplicates str (fingerprint_phase phash_file time_at images).1) →
  p ∈ images.
Proof.
  intros (g & (k & -> & _)%elem_of_group_exact_duplicates & Hp)%elem_of_concat.
  apply elem_of_members in Hp as (h & Hin & _).
  apply fingerprint_keys, list_elem_of_fmap. by exists (p, Some h).
Qed.

Lemma compare_images_state folder mv s :
  (compare_images str phash_file time_at os_walk folder mv s).1.2 =
  (move_phase mv
     (group_exact_duplicates str
        (fingerprint_phase phash_file time_at (find_images os_walk folder)).1) s).2 ∧
  ((compare_images str phash_file time_at os_walk folder mv s).1.1 = Return () ↔
   (move_phase mv
     (group_exact_duplicates str
        (fingerprint_phase phash_file time_at (find_images os_walk folder)).1) s).1
   = Return ()).
Proof.
  unfold compare_images. destruct (fingerprint_phase _ _ _) as [hash_dict lines].
  cbn [fst snd]. by destruct (move_phase _ _ _) as [[[]|e] s'].
Qed.
End whole_runs.

Section any_run_sources.
Implicit Types (s : state) (p q o dir dest src : string).

Lemma move_group_moves s dir group :
  ∃ news,
    relocations (move_group dir group s).2 = relocations s ++ news ∧
    Forall (λ r, quarantined dir r.1 r.2 ∧ r.1 ∈ group) news.
Proof.
  unfold move_group. rewrite bind_unfold.
  pose proof (py_max_state group s) as Hs.
  destruct (py_max getsize group s) as [[o|e] s1]; simpl in Hs; subst s1.
  - destruct (move_others_any o dir group s) as (news & Hrel & Hall & [k Hk] & _).
    exists news. split; [done|]. apply Forall_forall. intros r Hr.
    split; [by apply (proj1 (Forall_forall _ _) Hall)|].
    assert (r.1 ∈ filter (λ p, p ≠ o) group) as [_ ?]%list_elem_of_filter; [|done].
    rewrite Hk, elem_of_app. left. by apply list_elem_of_fmap_2.
  - exists []. simpl. by rewrite app_nil_r.
Qed.

Lemma move_groups_moves dir groups s :
  ∃ news,
    relocations (move_groups dir groups s).2 = relocations s ++ news ∧
    Forall (λ r, quarantined dir r.1 r.2 ∧ r.1 ∈ concat groups) news.
Proof.
  revert s. induction groups as [|g gs IH]; intros s.
  { exists []. simpl. by rewrite app_nil_r. }
  simpl. rewrite bind_unfold.
  destruct (move_group_moves s dir g) as (news1 & Hrel1 & Hall1).
  destruct (move_group dir g s) as [[[]|e] s1]; simpl in Hrel1.
  - destruct (IH s1) as (news2 & Hrel2 & Hall2). exists (news1 ++ news2). split.
    + by rewrite Hrel2, Hrel1, <-app_assoc.
    + apply Forall_app. split.
      * eapply Forall_impl; [done|]. intros r [? ?]. rewrite elem_of_app. auto.
      * eapply Forall_impl; [done|]. intros r [? ?]. rewrite elem_of_app. auto.
  - exists news1. split; [done|].
    eapply Forall_impl; [done|]. intros r [? ?]. rewrite elem_of_app. auto.
Qed.

Lemma move_phase_moves mv groups s :
  ∃ news,
    relocations (move_phase mv groups s).2 = relocations s ++ news ∧
    Forall (λ r, r.1 ∈ concat groups ∧
                 ∃ root, mv = Some root ∧ root ≠ "" ∧
                         quarantined (os_path.join root "duplicates") r.1 r.2) news.
Proof.
  unfold move_phase. destruct mv as [root|].
  - case_decide as Hroot.
    + exists []. simpl. by rewrite app_nil_r.
    + destruct (move_groups_moves (os_path.join root "duplicates") groups s)
        as (news & Hrel & Hall).
      exists news. split; [done|]. eapply Forall_impl; [done|].
      intros r [? ?]. eauto.
  - exists []. simpl. by rewrite app_nil_r.
Qed.

(** A group that is processed without exception: all its paths but one
    are moved. *)
Lemma move_group_returns s dir group s' :
  move_group dir group s = (Return (), s') →
  ∃ o news, o ∈ group ∧
    relocations s' = relocations s ++ news ∧
    news.*1 = filter (λ p, p ≠ o) group ∧
    Forall (λ r, quarantined dir r.1 r.2) news.
Proof.
  unfold move_group. rewrite bind_unfold.
  destruct (py_max getsize group s) as [[o|e] s1] eqn:Hmax; [|done].
  apply py_max_returns in Hmax as (-> & Ho & _). intros Hrun.
  destruct (move_others_any o dir group s) as (news & Hrel & Hall & _ & Hret).
  rewrite Hrun in Hrel, Hret. exists o, news. split_and!; [done | done | | done].
  by apply Hret.
Qed.

Lemma move_groups_returns dir groups s s' :
  move_groups dir groups s = (Return (), s') →
  ∃ originals news,
    Forall2 (λ g o, o ∈ g) groups originals ∧
    relocations s' = relocations s ++ news ∧
    news.*1 = concat (zip_with (λ g o, filter (λ p, p ≠ o) g) groups originals) ∧
    Forall (λ r, quarantined dir r.1 r.2) news.
Proof.
  revert s. induction groups as [|g gs IH]; intros s; simpl.
  { intros [= <-]. exists [], []. rewrite app_nil_r.
    split_and!; [constructor | done | done | constructor]. }
  rewrite bind_unfold. destruct (move_group dir g s) as [[[]|e] s1] eqn:Hg; [|done].
  apply move_group_returns in Hg as (o & news1 & Ho & Hrel1 & Hsrc1 & Hall1).
  intros (os & news2 & Hos & Hrel2 & Hsrc2 & Hall2)%IH.
  exists (o :: os), (news1 ++ news2). split_and!.
  - by constructor.
  - by rewrite Hrel2, Hrel1, <-app_assoc.
  - simpl. by rewrite fmap_app, Hsrc1, Hsrc2.
  - by apply Forall_app.
Qed.
End any_run_sources.

Section whole_runs_moved.
Context {Fingerprint : Type} (str : Fingerprint → string).
Context (phash_file : Path → outcome Fingerprint).
Context (time_at : Z → Qc).
Context (os_walk : string → list (string * list string * list string)).
Implicit Types (images : list Path) (s : state) (p : Path).

(** X8.  A normal return of [compare_images] with a destination that is
    not empty tells that the moves were all done: every group of the run
    has one path that was not moved, and the moves recorded are those of
    all the other paths of the groups, group after group and in the order
    of each group, each to a name inside [duplicates] under the
    destination. *)
Theorem normal_return_means_all_moved folder root s s' printed :
  root ≠ "" →
  compare_images str phash_file time_at os_walk folder (Some root) s
    = (Return (), s', printed) →
  ∃ originals news,
    Forall2 (λ g o, o ∈ g)
      (group_exact_duplicates str
         (fingerprint_phase phash_file time_at (find_images os_walk folder)).1)
      originals ∧
    relocations s' = relocations s ++ news ∧
    news.*1 =
      concat (zip_with (λ g o, filter (λ p, p ≠ o) g)
                (group_exact_duplicates str
                   (fingerprint_phase phash_file time_at (find_images os_walk folder)).1)
                originals) ∧
    Forall (λ r, quarantined (os_path.join root "duplicates") r.1 r.2) news.
Proof.
  intros Hroot Hrun.
  destruct (compare_images_state str phash_file time_at os_walk folder (Some root) s)
    as [Hstate Hret].
  rewrite Hrun in Hstate, Hret. simpl in Hstate, Hret.
  apply (move_groups_returns (os_path.join root "duplicates")).
  unfold move_phase in Hstate, Hret. rewrite decide_False in Hstate, Hret by done.
  destruct (move_groups _ _ s) as [out s1]. simpl in *. subst s1.
  by rewrite (proj1 Hret eq_refl).
Qed.

(** X9.  On any run of [compare_images], whatever the files and however it
    ends, a file is moved only if it is an image that was found and belongs
    to a group of the run, which has two paths or more, and only to a name
    inside [duplicates] under a destination that was given and is not
    empty. *)
Theorem only_grouped_images_are_moved folder mv s :
  ∃ news,
    relocations (compare_images str phash_file time_at os_walk folder mv s).1.2
      = relocations s ++ news ∧
    Forall (λ r,
      r.1 ∈ find_images os_walk folder ∧
      (∃ g, g ∈ group_exact_duplicates str
                  (fingerprint_phase phash_file time_at (find_images os_walk folder)).1
            ∧ r.1 ∈ g ∧ 2 ≤ length g) ∧
      ∃ root, mv = Some root ∧ root ≠ "" ∧
              quarantined (os_path.join root "duplicates") r.1 r.2) news.
Proof.
  destruct (compare_images_state str phash_file time_at os_walk folder mv s) as [-> _].
  destruct (move_phase_moves mv
              (group_exact_duplicates str
                 (fingerprint_phase phash_file time_at (find_images os_walk folder)).1) s)
    as (news & Hrel & Hall).
  exists news. split; [done|]. eapply Forall_impl; [done|].
  intros r [Hin Hroot]. split_and!; [|  |done].
  - by apply (grouped_paths_found str phash_file time_at).
  - apply elem_of_concat in Hin as (g & Hg & Hin). exists g. split_and!; [done..|].
    apply elem_of_group_exact_duplicates in Hg as (k & -> & Hlen). lia.
Qed.
End whole_runs_moved.

(** ** The estimate *)

Section estimate_more.
Context {Fingerprint : Type} (phash_file : Path → outcome Fingerprint).
Context (time_at : Z → Qc).
Implicit Types (images : list Path).

(** X12.  When the results come at a steady pace, one every [t] seconds
    from the start, the estimate is exact: the line printed after the
    [i]-th of [N] results shows the ETA [t * (N - i)], and the last line
    shows 0. *)
Theorem eta_exact_at_steady_pace images (t : Qc) :
  (∀ i, (1 ≤ i ≤ Z.of_nat (length images))%Z →
        time_at i = (time_at 0 + t * Qc_of_Z i)%Qc) →
  ∀ k line, (fingerprint_phase phash_file time_at images).2 !! k = Some line →
    shown_eta line =
      Some (t * Qc_of_Z (Z.of_nat (length images) - Z.of_nat (S k)))%Qc ∧
    (S k = length images → shown_eta line = Some 0%Qc).
Proof.
  intros Hpace k line Hk. rewrite fingerprint_phase_lines, list_lookup_fmap in Hk.
  destruct (seqZ _ _ !! k) as [i|] eqn:Hi; [|done].
  apply lookup_seqZ in Hi as [-> Hlt]. injection Hk as <-.
  replace (1 + Z.of_nat k)%Z with (Z.of_nat (S k)) by lia.
  assert (shown_eta (print_progress_bar (Z.of_nat (S k)) (Z.of_nat (length images)) 40
            (Some (eta_after time_at (Z.of_nat (length images)) (Z.of_nat (S k)))))
          = Some (t * Qc_of_Z (Z.of_nat (length images) - Z.of_nat (S k)))%Qc) as Heta.
  { cbn [shown_eta print_progress_bar]. f_equal. unfold eta_after.
    rewrite Hpace by lia.
    assert (Qc_of_Z (Z.of_nat (S k)) ≠ 0%Qc) as Hnz.
    { rewrite <-Z2Qc_inj_0. intros ?%Z2Qc_inj. lia. }
    replace (time_at 0 + t * Qc_of_Z (Z.of_nat (S k)) - time_at 0)%Qc
      with (t * Qc_of_Z (Z.of_nat (S k)))%Qc by ring.
    by rewrite Qcdiv_mult_l. }
  split; [done|]. intros Hlast. rewrite Heta, Hlast, Z.sub_diag.
  by rewrite Z2Qc_inj_0, Qcmult_0_r.
Qed.
End estimate_more.

(** ** The sample folder again *)

Lemma no_group_iff_no_shared_fingerprint_witness :
  NoDup demo_hashes.*1 ∧
  (group_exact_duplicates demo_str demo_hashes = [] ↔
   ∀ p q hp hq,
     PyDict.get demo_hashes p = Some (Some hp) →
     PyDict.get demo_hashes q = Some (Some hq) →
     demo_str hp = demo_str hq → p = q).
Proof.
  assert (NoDup demo_hashes.*1) as Hnd by compute_done.
  split; [exact Hnd|].
  exact (no_group_iff_no_shared_fingerprint demo_str demo_hashes Hnd).
Defined.


Lemma normal_return_means_all_moved_witness :
  "out" ≠ "" ∧
  compare_images demo_str demo_phash demo_time demo_walk "in" (Some "out")
    (State demo_files [])
  = (Return (),
     (compare_images demo_str demo_phash demo_time demo_walk "in" (Some "out")
        (State demo_files [])).1.2,
     (compare_images demo_str demo_phash demo_time demo_walk "in" (Some "out")
        (State demo_files [])).2) ∧
  ∃ originals news,
    Forall2 (λ g o, o ∈ g)
      (group_exact_duplicates demo_str
         (fingerprint_phase demo_phash demo_time (find_images demo_walk "in")).1)
      originals ∧
    relocations (compare_images demo_str demo_phash demo_time demo_walk "in"
                   (Some "out") (State demo_files [])).1.2 = [] ++ news ∧
    news.*1 =
      concat (zip_with (λ g o, filter (λ p, p ≠ o) g)
                (group_exact_duplicates demo_str
                   (fingerprint_phase demo_phash demo_time (find_images demo_walk "in")).1)
                originals) ∧
    Forall (λ r, quarantined (os_path.join "out" "duplicates") r.1 r.2) news.
Proof.
  assert ("out" ≠ "") as Hroot by discriminate.
  assert (compare_images demo_str demo_phash demo_time demo_walk "in" (Some "out")
            (State demo_files [])
          = (Return (),
             (compare_images demo_str demo_phash demo_time demo_walk "in" (Some "out")
                (State demo_files [])).1.2,
             (compare_images demo_str demo_phash demo_time demo_walk "in" (Some "out")
                (State demo_files [])).2)) as Hrun.
  { assert ((compare_images demo_str demo_phash demo_time demo_walk "in" (Some "out")
               (State demo_files [])).1.1 = Return ()) as Hret
      by (vm_compute; reflexivity).
    destruct (compare_images _ _ _ _ _ _ _) as [[out s'] printed].
    simpl in *. by rewrite Hret. }
  split_and!; [exact Hroot | exact Hrun |].
  exact (normal_return_means_all_moved demo_str demo_phash demo_time demo_walk
           "in" "out" (State demo_files []) _ _ Hroot Hrun).
Defined.

Lemma eta_exact_at_steady_pace_witness :
  (∀ i, (1 ≤ i ≤ Z.of_nat (length ["in/a.jpg"; "in/b.jpg"; "in/e.GIF"]))%Z →
        demo_time i = (demo_time 0 + Qc_of_Z 2 * Qc_of_Z i)%Qc) ∧
  ∀ k line,
    (fingerprint_phase demo_phash demo_time ["in/a.jpg"; "in/b.jpg"; "in/e.GIF"]).2 !! k
      = Some line →
    shown_eta line = Some (Qc_of_Z 2 * Qc_of_Z (3 - Z.of_nat (S k)))%Qc ∧
    (S k = 3 → shown_eta line = Some 0%Qc).
Proof.
  assert (∀ i, (1 ≤ i ≤ Z.of_nat (length ["in/a.jpg"; "in/b.jpg"; "in/e.GIF"]))%Z →
               demo_time i = (demo_time 0 + Qc_of_Z 2 * Qc_of_Z i)%Qc) as Hpace.
  { intros i _. unfold demo_time. rewrite Z2Qc_inj_mul.
    change (Qc_of_Z (2 * 0)) with (Qc_of_Z 0). rewrite Z2Qc_inj_0. ring. }
  split; [exact Hpace|].
  exact (eta_exact_at_steady_pace demo_phash demo_time
           ["in/a.jpg"; "in/b.jpg"; "in/e.GIF"] (Qc_of_Z 2) Hpace).
Defined.
